(** * cards.js: the card-game state engine, embedded in Rocq

    The development follows the latest revision of [cards.js] (the [Library]
    and [Game] objects).  Every method is a computation in a small
    state-and-exception monad, so that a [throw] (or an engine error such as
    a [TypeError], a [ReferenceError] or the [RangeError] of an exhausted
    call stack) leaves the state exactly as it was when the exception was
    raised.

    - Card objects live in a store indexed by their identity, which is the
      [id] that [create_card] gives them; [stacked_on] and [stack] hold such
      identities, so that two fields naming the same card alias it.  An
      identity not handed out yet denotes an object without any field.
    - [piles], [pile_groups], [card_data] and [group_data] are JavaScript
      objects used as maps and are kept as finite maps.  A finite map has
      the entries that were put in it and no others; a lookup in the
      object also finds the members of [Object.prototype] (under ids such
      as [constructor], [toString] or [hasOwnProperty]), and an assignment
      to [__proto__] makes no entry.  The theorems that say what such a
      lookup answers, or that a call which makes one returns, are stated
      for ids that name no such member.
    - Arrays are lists; a [for ... of] loop over an array that its body
      changes is a loop over indices that re-reads the array.
    - Recursive methods carry the number of call frames that are left.
    - [Math.random] is an arbitrary sequence of draws.
    - The DOM bookkeeping ([element], [cards_element], class lists) is not
      part of the model: it never reads or writes the fields embedded here.
      It can throw, though: [classList.add] and [classList.remove] on an id
      that holds whitespace, [removeChild] on the element of a card that is
      not in the document.  The theorems that say that a call returns are
      stated for ids without whitespace and for piles in order ([pile_wf]:
      every card once in its pile, and in no pile but the one it names),
      where the element of each card of a pile is in the document.
    - The counter of card ids is a natural number.  The counter of the
      source is a double, which counts exactly below 2^53 only.
    - The [properties] of a card are not part of the model, and neither is
      the copy that [create_card] makes of them with
      [copy_nonrecursive_obj]; where that copy throws, [create_card] throws
      after it has taken the id of the card. *)

From stdpp Require Import gmap strings list.
From Stdlib Require Import ZArith Lia.

Open Scope string_scope.
Open Scope list_scope.

(** ** JavaScript array helpers *)

Section arrays.
Context {A : Type} `{EqDecision A}.

(** Position of the first copy of [item], if there is one. *)
Fixpoint first_index (item : A) (array : list A) : option nat :=
  match array with
  | [] => None
  | x :: rest =>
      if decide (x = item) then Some 0 else S <$> first_index item rest
  end.

(** [Array.prototype.indexOf]: [-1] when the item is absent. *)
Definition indexOf (item : A) (array : list A) : Z :=
  match first_index item array with
  | Some i => Z.of_nat i
  | None => (-1)%Z
  end.

(** [remove_item_from_array]: splice out the first copy, if any. *)
Definition remove_item_from_array (item : A) (array : list A) : list A :=
  let idx := indexOf item array in
  if (0 <=? idx)%Z then delete (Z.to_nat idx) array else array.

(** [array.splice(start, 0, item)]; [start] is clamped to the length. *)
Definition splice_in (start : nat) (item : A) (array : list A) : list A :=
  take start array ++ item :: drop start array.

(** The Durstenfeld exchange [a[i] <-> a[j]] of [shuffle_pile]. *)
Definition swap_items (i j : nat) (array : list A) : list A :=
  match array !! i, array !! j with
  | Some moving, Some other => <[j := moving]> (<[i := other]> array)
  | _, _ => array
  end.
End arrays.

(** ** Data model *)

Definition card_ref := nat.

(** JSON-like property bags of card types. *)
#[local] Set Warnings "-register-all".
Inductive json : Type :=
  | JNull
  | JBool (b : bool)
  | JNum (z : Z)
  | JStr (s : string)
  | JArr (l : list json)
  | JObj (l : list (string * json)).

Record CardType := mkCardType {
  ct_id : string;
  face : string;
  properties : json
}.

Record Library := mkLibrary {
  name : string;
  card_data : gmap string CardType;
  all_cards : list string;
  group_data : gmap string (list string);
  all_groups : list string
}.

(** A card object.  Absent fields are [None]. *)
Record Card := mkCard {
  type : string;
  face_up : bool;
  pile : option string;
  stacked_on : option card_ref;
  stack : option (list card_ref)
}.

Inductive console_entry :=
  | InsertAfterOwnStack (card insert_after : card_ref).

Record Game := mkGame {
  library : Library;
  cards : card_ref -> Card;
  existing_cards : list card_ref;
  piles : gmap string (list card_ref);
  pile_groups : gmap string (list string);
  console : list console_entry;
  CURRENT_CARD_ID : nat
}.

Definition set_pile (p : option string) (c : Card) : Card :=
  mkCard (type c) (face_up c) p (stacked_on c) (stack c).
Definition set_stacked_on (o : option card_ref) (c : Card) : Card :=
  mkCard (type c) (face_up c) (pile c) o (stack c).
Definition set_stack (l : option (list card_ref)) (c : Card) : Card :=
  mkCard (type c) (face_up c) (pile c) (stacked_on c) l.
Definition set_face_up (b : bool) (c : Card) : Card :=
  mkCard (type c) b (pile c) (stacked_on c) (stack c).

(** Field update on one card object of the store. *)
Definition upd_card (card : card_ref) (f : Card -> Card) (g : Game) : Game :=
  mkGame (library g)
         (fun x => if decide (x = card) then f (cards g x) else cards g x)
         (existing_cards g) (piles g) (pile_groups g) (console g)
         (CURRENT_CARD_ID g).

Definition set_items (pile_id : string) (its : list card_ref) (g : Game) : Game :=
  mkGame (library g) (cards g) (existing_cards g) (<[pile_id := its]> (piles g))
         (pile_groups g) (console g) (CURRENT_CARD_ID g).

Definition log_error (e : console_entry) (g : Game) : Game :=
  mkGame (library g) (cards g) (existing_cards g) (piles g) (pile_groups g)
         (console g ++ [e]) (CURRENT_CARD_ID g).

(** A pile id is used as a condition in several places: [undefined] and the
    empty string are falsy. *)
Definition truthy (p : option string) : bool :=
  match p with
  | Some s => negb (String.eqb s "")
  | None => false
  end.

(** Property key obtained from a possibly absent pile id. *)
Definition js_key (p : option string) : string := default "undefined" p.

(** ** The monad of game methods *)

Inductive exn :=
  | Error
  | InternalError
  | ReferenceError
  | TypeError
  | RangeError.

Inductive outcome (A : Type) :=
  | Ret (a : A)
  | Throw (e : exn).
Arguments Ret {A} a.
Arguments Throw {A} e.

(** A method over a state of type [St]: it returns or throws, and always
    leaves a state behind. *)
Definition ST (St A : Type) : Type := St -> outcome A * St.

Definition ret {St A} (a : A) : ST St A := fun g => (Ret a, g).
Definition throw {St A} (e : exn) : ST St A := fun g => (Throw e, g).
Definition bind {St A B} (m : ST St A) (k : A -> ST St B) : ST St B :=
  fun g =>
    match m g with
    | (Ret a, g') => k a g'
    | (Throw e, g') => (Throw e, g')
    end.
Definition gets {St A} (f : St -> A) : ST St A := fun g => (Ret (f g), g).
Definition modify {St} (f : St -> St) : ST St unit := fun g => (Ret tt, f g).

Notation "x <- m ;; k" := (bind m (fun x => k))
  (at level 100, m at next level, right associativity).
Notation "m ;; k" := (bind m (fun _ => k))
  (at level 100, right associativity).

(** [obj.field] where [obj] may be [undefined]. *)
Definition deref {St A} (o : option A) : ST St A :=
  match o with
  | Some a => ret a
  | None => throw TypeError
  end.

(** A free identifier that no declaration binds. *)
Definition unbound_identifier {St A} (id : string) : ST St A :=
  throw ReferenceError.

(** [for (let x of array)] over a snapshot (the array is not changed by the
    body, or the source iterates over a [slice()]). *)
Fixpoint for_of {St A} (array : list A) (body : A -> ST St unit) : ST St unit :=
  match array with
  | [] => ret tt
  | x :: rest => body x ;; for_of rest body
  end.

(** [for (let x of array)] over a live array that the body may shrink: the
    iterator keeps an index and re-reads the array at every step.  [budget]
    is the length of the array when the loop starts; no loop of the source
    grows the array it iterates over, so the budget is never what ends the
    loop early. *)
Fixpoint for_of_live {St A} (read : St -> option (list A))
    (body : A -> ST St unit) (budget index : nat) : ST St unit :=
  match budget with
  | 0 => ret tt
  | S budget' =>
      array <- gets read ;;
      match array with
      | None => ret tt
      | Some l =>
          match l !! index with
          | None => ret tt
          | Some x => body x ;; for_of_live read body budget' (S index)
          end
      end
  end.

Definition for_of_array {St A} (read : St -> option (list A))
    (body : A -> ST St unit) : ST St unit :=
  array <- gets read ;;
  for_of_live read body (length (default [] array)) 0.

(** ** Library methods *)

(** [Object.hasOwnProperty(o, k)] is [Object.prototype.hasOwnProperty]
    called on the [Object] constructor itself: its receiver is [Object], its
    single parameter is [o] converted to a property key, and [k] is a
    surplus argument that is never read.  A plain object converts to the
    key below, and the own properties of [Object] are its static members. *)
Definition plain_object_as_key : string := "[object Object]".

Definition Object_own_keys : list string :=
  [ "length"; "name"; "prototype"; "assign"; "getOwnPropertyDescriptor";
    "getOwnPropertyDescriptors"; "getOwnPropertyNames";
    "getOwnPropertySymbols"; "hasOwn"; "is"; "preventExtensions"; "seal";
    "create"; "defineProperties"; "defineProperty"; "freeze";
    "getPrototypeOf"; "setPrototypeOf"; "isExtensible"; "isFrozen";
    "isSealed"; "keys"; "entries"; "fromEntries"; "values"; "groupBy" ].

Definition Object_hasOwnProperty {V} (o : gmap string V) (k : string) : bool :=
  bool_decide (plain_object_as_key ∈ Object_own_keys).

Definition L (A : Type) : Type := ST Library A.

Definition register_card (card_type_id face_html : string) (props : json)
    : L unit :=
  known <- gets (fun lib => card_data lib !! card_type_id) ;;
  if bool_decide (is_Some known) then throw Error
  else
    modify (fun lib =>
      mkLibrary (name lib)
        (<[card_type_id := mkCardType card_type_id face_html props]>
           (card_data lib))
        (all_cards lib ++ [card_type_id])
        (group_data lib) (all_groups lib)).

(** The filter loop of [create_group], accumulating [group_members]. *)
Fixpoint group_members_of (filter : json -> bool) (types : list string)
    (group_members : list string) : L (list string) :=
  match types with
  | [] => ret group_members
  | card_type_id :: rest =>
      data <- gets (fun lib => card_data lib !! card_type_id) ;;
      data <- deref data ;;
      if filter (properties data)
      then group_members_of filter rest (group_members ++ [card_type_id])
      else group_members_of filter rest group_members
  end.

Definition create_group (group_id : string) (filter : json -> bool) : L unit :=
  exists_already <- gets (fun lib => Object_hasOwnProperty (group_data lib) group_id) ;;
  if (exists_already : bool) then throw Error
  else
    types <- gets all_cards ;;
    group_members <- group_members_of filter types [] ;;
    modify (fun lib =>
      mkLibrary (name lib) (card_data lib) (all_cards lib)
        (<[group_id := group_members]> (group_data lib))
        (all_groups lib ++ [group_id])).

Definition card_type_belongs_to_group (card_type group_id : string) : L bool :=
  members <- gets (fun lib => group_data lib !! group_id) ;;
  members <- deref members ;;
  ret (0 <=? indexOf card_type members)%Z.

Definition all_card_types_in_group (group_id : string) : L (list string) :=
  members <- gets (fun lib => group_data lib !! group_id) ;;
  deref members.

(** ** Game methods *)

Definition M (A : Type) : Type := ST Game A.

Definition field {A} (f : Card -> A) (card : card_ref) : M A :=
  gets (fun g => f (cards g card)).

Definition assign (card : card_ref) (f : Card -> Card) : M unit :=
  modify (upd_card card f).

(** [this.piles[pile_id].items] *)
Definition items_of (pile_id : string) : M (list card_ref) :=
  its <- gets (fun g => piles g !! pile_id) ;;
  deref its.

Definition next_card_id : M nat :=
  result <- gets CURRENT_CARD_ID ;;
  modify (fun g =>
    mkGame (library g) (cards g) (existing_cards g) (piles g) (pile_groups g)
           (console g) (result + 1)) ;;
  ret result.

(** *** Pile actions *)

Definition create_pile (pile_id : string) : M unit :=
  modify (set_items pile_id []).

Definition pile_is_in_group (pile_id pile_group_id : string) : M bool :=
  groups_for_pile <- gets (fun g => pile_groups g !! pile_id) ;;
  match groups_for_pile with
  | None => ret false
  | Some l => ret (0 <=? indexOf pile_group_id l)%Z
  end.

Definition add_pile_to_group (pile_id pile_group_id : string) : M unit :=
  already <- pile_is_in_group pile_id pile_group_id ;;
  if (already : bool) then ret tt
  else
    groups_for_pile <- gets (fun g => default [] (pile_groups g !! pile_id)) ;;
    modify (fun g =>
      mkGame (library g) (cards g) (existing_cards g) (piles g)
        (<[pile_id := groups_for_pile ++ [pile_group_id]]> (pile_groups g))
        (console g) (CURRENT_CARD_ID g)) ;;
    _ <- items_of pile_id ;;
    ret tt.

(** *** Card actions *)

Definition blank_card (type_id : string) (is_face_up : bool) : Card :=
  mkCard type_id is_face_up None None None.

Definition create_card (card_type_id : string) (face_up_or_false : bool)
    : M card_ref :=
  data <- gets (fun g => card_data (library g) !! card_type_id) ;;
  data <- deref data ;;
  id <- next_card_id ;;
  assign id (fun _ => blank_card (ct_id data) face_up_or_false) ;;
  modify (fun g =>
    mkGame (library g) (cards g) (existing_cards g ++ [id]) (piles g)
           (pile_groups g) (console g) (CURRENT_CARD_ID g)) ;;
  ret id.

Definition _remove_card_from_pile (card : card_ref) : M unit :=
  prev_pile <- field pile card ;;
  if truthy prev_pile then
    its <- items_of (js_key prev_pile) ;;
    modify (set_items (js_key prev_pile) (remove_item_from_array card its)) ;;
    assign card (set_pile None)
  else ret tt.

(** Recursive methods take the number of call frames still available to
    their recursion; an exhausted stack is the engine's [RangeError]. *)
Fixpoint stack_root (frames : nat) (card : card_ref) (orig : option card_ref)
    : M card_ref :=
  match frames with
  | 0 => throw RangeError
  | S frames' =>
      on <- field stacked_on card ;;
      match on with
      | None => ret card
      | Some parent =>
          if decide (orig = Some card) then ret parent
          else stack_root frames' parent (Some (default card orig))
      end
  end.

Fixpoint has_stack_ancestor (frames : nat) (card ancestor : card_ref) : M bool :=
  match frames with
  | 0 => throw RangeError
  | S frames' =>
      if decide (card = ancestor) then ret true
      else
        on <- field stacked_on card ;;
        match on with
        | Some parent => has_stack_ancestor frames' parent ancestor
        | None => ret false
        end
  end.

Fixpoint _remove_stack_from_pile (frames : nat) (card : card_ref) : M unit :=
  match frames with
  | 0 => throw RangeError
  | S frames' =>
      _remove_card_from_pile card ;;
      for_of_array (fun g => stack (cards g card))
                   (_remove_stack_from_pile frames')
  end.

Definition _stack_cards (card_to_stack stack_onto : card_ref) : M unit :=
  assign card_to_stack (set_stacked_on (Some stack_onto)) ;;
  st <- field stack stack_onto ;;
  match st with
  | Some l => assign stack_onto (set_stack (Some (l ++ [card_to_stack])))
  | None => assign stack_onto (set_stack (Some [card_to_stack]))
  end.

Definition _unstack_card (card : card_ref) : M unit :=
  on <- field stacked_on card ;;
  match on with
  | None => ret tt
  | Some parent =>
      assign card (set_stacked_on None) ;;
      st <- field stack parent ;;
      l <- deref st ;;
      let l' := remove_item_from_array card l in
      assign parent (set_stack (Some l')) ;;
      if decide (length l' = 0) then assign parent (set_stack None)
      else ret tt
  end.

Definition unstack_all_from (stack_base : card_ref) : M unit :=
  st <- field stack stack_base ;;
  match st with
  | Some l => for_of l _unstack_card
  | None => ret tt
  end.

Definition position_in_pile (card : card_ref) : M (option Z) :=
  p <- field pile card ;;
  if truthy p then
    pile_items <- items_of (js_key p) ;;
    ret (Some (indexOf card pile_items))
  else ret None.

(** [start] argument of [splice]: [NaN] (from [undefined + 1]) counts as 0. *)
Definition splice_start (insert_at : option Z) : nat :=
  match insert_at with
  | Some z => Z.to_nat z
  | None => 0
  end.

Fixpoint insert_stack_into_pile_after (frames : nat)
    (card insert_after : card_ref) : M unit :=
  match frames with
  | 0 => throw RangeError
  | S frames' =>
      cyclic <- has_stack_ancestor frames' insert_after card ;;
      if (cyclic : bool) then
        modify (log_error (InsertAfterOwnStack card insert_after))
      else
        _remove_stack_from_pile frames' card ;;
        on <- field stacked_on card ;;
        match on with
        | Some parent =>
            parent_pile <- field pile parent ;;
            target_pile <- field pile insert_after ;;
            if decide (parent_pile <> target_pile) then _unstack_card card
            else ret tt
        | None => ret tt
        end ;;
        base_idx <- position_in_pile insert_after ;;
        st <- field stack insert_after ;;
        let insert_at :=
          match st with
          | Some l => (fun i => i + 1 + Z.of_nat (length l))%Z <$> base_idx
          | None => (fun i => i + 1)%Z <$> base_idx
          end in
        target_pile <- field pile insert_after ;;
        pile_items <- items_of (js_key target_pile) ;;
        modify (set_items (js_key target_pile)
                  (splice_in (splice_start insert_at) card pile_items)) ;;
        assign card (set_pile target_pile) ;;
        for_of_array (fun g => stack (cards g card))
          (fun stacked => insert_stack_into_pile_after frames' stacked card)
  end.

(** Whether or not the engine knows [InternalError], evaluating the
    [throw] statement raises an exception before anything else happens. *)
Definition stack_card_on_card (frames : nat)
    (card_to_stack stack_onto : card_ref) : M unit :=
  if decide (card_to_stack = stack_onto) then throw InternalError
  else
    _unstack_card card_to_stack ;;
    p <- field pile stack_onto ;;
    (if truthy p
     then insert_stack_into_pile_after frames card_to_stack stack_onto
     else _remove_stack_from_pile frames card_to_stack) ;;
    _stack_cards card_to_stack stack_onto.

Definition unstack_card (frames : nat) (card : card_ref) : M unit :=
  p <- field pile card ;;
  on <- field stacked_on card ;;
  _unstack_card card ;;
  match on with
  | Some parent =>
      st <- field stack parent ;;
      if truthy p && bool_decide (is_Some st)
           && negb (bool_decide (length (default [] st) = 0))
      then insert_stack_into_pile_after frames card parent
      else ret tt
  | None => ret tt
  end.

Definition remove_card_from_pile (frames : nat) (card : card_ref) : M unit :=
  unstack_all_from card ;;
  unstack_card frames card ;;
  _remove_card_from_pile card.

Definition remove_stack_from_pile (frames : nat) (card : card_ref) : M unit :=
  _unstack_card card ;;
  _remove_stack_from_pile frames card.

Definition insert_card_into_pile_after (frames : nat)
    (card insert_after : card_ref) : M unit :=
  _unstack_card card ;;
  unstack_all_from card ;;
  insert_stack_into_pile_after frames card insert_after.

Fixpoint put_stack_on_pile (frames : nat) (card : card_ref) (pile_id : string)
    : M unit :=
  match frames with
  | 0 => throw RangeError
  | S frames' =>
      _remove_stack_from_pile frames' card ;;
      assign card (set_pile (Some pile_id)) ;;
      pile_items <- items_of pile_id ;;
      modify (set_items pile_id (pile_items ++ [card])) ;;
      for_of_array (fun g => stack (cards g card))
        (fun stacked => put_stack_on_pile frames' stacked pile_id) ;;
      on <- field stacked_on card ;;
      match on with
      | Some parent =>
          parent_pile <- field pile parent ;;
          own_pile <- field pile card ;;
          if decide (parent_pile <> own_pile) then _unstack_card card
          else ret tt
      | None => ret tt
      end
  end.

Definition put_card_on_pile (frames : nat) (card : card_ref) (pile_id : string)
    : M unit :=
  _unstack_card card ;;
  unstack_all_from card ;;
  put_stack_on_pile frames card pile_id.

Definition delete_pile (pile_id : string) : M unit :=
  _ <- items_of pile_id ;;
  for_of_array (fun g => piles g !! pile_id) _remove_card_from_pile ;;
  modify (fun g =>
    mkGame (library g) (cards g) (existing_cards g) (delete pile_id (piles g))
           (delete pile_id (pile_groups g)) (console g) (CURRENT_CARD_ID g)).

(** The exchange loop of [shuffle_pile], for [i] down to 1.  [random i] is
    the draw made at step [i]; [Math.floor(Math.random() * (i + 1))] always
    lies in [0 .. i], which the remainder renders. *)
Fixpoint shuffle_from (random : nat -> nat) (pile_id : string) (i : nat)
    : M unit :=
  match i with
  | 0 => ret tt
  | S i' =>
      let j := random i mod (i + 1) in
      pile_items <- items_of pile_id ;;
      modify (set_items pile_id (swap_items i j pile_items)) ;;
      shuffle_from random pile_id i'
  end.

Definition shuffle_pile (random : nat -> nat) (pile_id : string) : M unit :=
  _ <- items_of pile_id ;;
  for_of_array (fun g => piles g !! pile_id) unstack_all_from ;;
  pile_items <- items_of pile_id ;;
  shuffle_from random pile_id (length pile_items - 1).

Definition flip_card (card : card_ref) (put_face_up : option bool) : M unit :=
  match put_face_up with
  | None => assign card (fun c => set_face_up (negb (face_up c)) c)
  | Some b => assign card (set_face_up b)
  end.

(** *** State functions *)

Definition position_in_stack (card : card_ref) : M (option Z) :=
  on <- field stacked_on card ;;
  match on with
  | None => ret None
  | Some parent =>
      st <- field stack parent ;;
      l <- deref st ;;
      ret (Some (indexOf card l))
  end.

Definition card_is_on_top_of_stack (card : card_ref) : M bool :=
  st <- field stack card ;;
  on <- field stacked_on card ;;
  if negb (bool_decide (is_Some st)) && negb (bool_decide (is_Some on))
  then ret true
  else if bool_decide (is_Some st) then ret false
  else
    pos <- position_in_stack card ;;
    base <- unbound_identifier "base" ;;
    base_stack <- field stack base ;;
    l <- deref base_stack ;;
    ret (bool_decide (pos = Some (Z.of_nat (length l) - 1)%Z)).

(** The public operations of the engine, as data, so that sequences of
    calls can be quantified over. *)
Inductive operation :=
  | Create_pile (pile_id : string)
  | Delete_pile (pile_id : string)
  | Add_pile_to_group (pile_id pile_group_id : string)
  | Create_card (card_type_id : string) (face_up_or_false : bool)
  | Flip_card (card : card_ref) (put_face_up : option bool)
  | Stack_card_on_card (card_to_stack stack_onto : card_ref)
  | Insert_stack_into_pile_after (card insert_after : card_ref)
  | Insert_card_into_pile_after (card insert_after : card_ref)
  | Put_card_on_pile (card : card_ref) (pile_id : string)
  | Put_stack_on_pile (card : card_ref) (pile_id : string)
  | Remove_card_from_pile (card : card_ref)
  | Remove_stack_from_pile (card : card_ref)
  | Unstack_card (card : card_ref)
  | Unstack_all_from (stack_base : card_ref)
  | Shuffle_pile (random : nat -> nat) (pile_id : string).

Definition perform (frames : nat) (op : operation) : M unit :=
  match op with
  | Create_pile p => create_pile p
  | Delete_pile p => delete_pile p
  | Add_pile_to_group p grp => add_pile_to_group p grp
  | Create_card t f => _ <- create_card t f ;; ret tt
  | Flip_card c b => flip_card c b
  | Stack_card_on_card a b => stack_card_on_card frames a b
  | Insert_stack_into_pile_after a b => insert_stack_into_pile_after frames a b
  | Insert_card_into_pile_after a b => insert_card_into_pile_after frames a b
  | Put_card_on_pile c p => put_card_on_pile frames c p
  | Put_stack_on_pile c p => put_stack_on_pile frames c p
  | Remove_card_from_pile c => remove_card_from_pile frames c
  | Remove_stack_from_pile c => remove_stack_from_pile frames c
  | Unstack_card c => unstack_card frames c
  | Unstack_all_from c => unstack_all_from c
  | Shuffle_pile random p => shuffle_pile random p
  end.

(** Card objects handed to an operation have been created before. *)
Definition created (g : Game) (c : card_ref) : Prop := c < CURRENT_CARD_ID g.

Definition on_created_cards (g : Game) (op : operation) : Prop :=
  match op with
  | Flip_card c _ | Put_card_on_pile c _ | Put_stack_on_pile c _
  | Remove_card_from_pile c | Remove_stack_from_pile c | Unstack_card c
  | Unstack_all_from c => created g c
  | Stack_card_on_card a b | Insert_stack_into_pile_after a b
  | Insert_card_into_pile_after a b => created g a /\ created g b
  | _ => True
  end.

(** The state of [new Game(library, rules, play_area)] before any pile is
    made: no card object has any field set. *)
Definition new_Game (lib : Library) (counter : nat) : Game :=
  mkGame lib (fun _ => blank_card "" false) [] ∅ ∅ [] counter.

(** States that a program can bring about through the public operations;
    an operation that throws leaves the state it had reached. *)
Inductive reachable : Game -> Prop :=
  | reachable_new lib counter : reachable (new_Game lib counter)
  | reachable_step g frames op :
      reachable g -> on_created_cards g op ->
      reachable (snd (perform frames op g)).

(** ** Stacking relation *)

Definition in_stack_of (g : Game) (y x : card_ref) : Prop :=
  exists l, stack (cards g y) = Some l /\ x ∈ l.

(** [X.stacked_on == Y] iff [Y.stack] contains [X]. *)
Definition stack_consistent (g : Game) : Prop :=
  forall x y, stacked_on (cards g x) = Some y <-> in_stack_of g y x.

Record stack_wf (g : Game) : Prop := mk_stack_wf {
  wf_consistent : stack_consistent g;
  wf_nodup : forall y l, stack (cards g y) = Some l -> NoDup l;
  wf_nonempty : forall y, stack (cards g y) <> Some []
}.

(** The [n]-th card down the [stacked_on] chain of [x]. *)
Fixpoint nth_stacked_on (g : Game) (n : nat) (x : card_ref) : option card_ref :=
  match n with
  | 0 => Some x
  | S n' =>
      match stacked_on (cards g x) with
      | Some y => nth_stacked_on g n' y
      | None => None
      end
  end.

(** [ancestor] is [card] or one of the cards it is (transitively) stacked on. *)
Definition stack_ancestor (g : Game) (card ancestor : card_ref) : Prop :=
  exists n, nth_stacked_on g n card = Some ancestor.

(** ** Concrete libraries and games, after the test suite of the source *)

Definition prop_of (key : string) (props : json) : option json :=
  match props with
  | JObj l => (fun r => snd (snd r)) <$> list_find (fun kv => fst kv = key) l
  | _ => None
  end.

Definition test_props (number : Z) (color : string) : json :=
  JObj [("number", JNum number); ("color", JStr color)].

Definition is_even (props : json) : bool :=
  match prop_of "number" props with
  | Some (JNum z) => (z mod 2 =? 0)%Z
  | _ => false
  end.

Definition is_odd (props : json) : bool :=
  match prop_of "number" props with
  | Some (JNum z) => (z mod 2 =? 1)%Z
  | _ => false
  end.

Definition new_Library (lib_name : string) : Library :=
  mkLibrary lib_name ∅ [] ∅ [].

(** [setup_test_library], up to its first group. *)
Definition test_library : Library :=
  snd ((register_card "t1" "t1" (test_props 1 "blue") ;;
        register_card "t2" "t2" (test_props 2 "blue") ;;
        register_card "t3" "t3" (test_props 3 "red") ;;
        register_card "t4" "t4" (test_props 4 "red") ;;
        register_card "t5" "t5" (test_props 5 "yellow") ;;
        create_group "evens" is_even) (new_Library "test")).

(** A sequence of public calls, each with room for 8 nested frames. *)
Definition play (ops : list operation) (g : Game) : Game :=
  foldl (fun g op => snd (perform 8 op g)) g ops.

(** Pile [tp] holding two freshly created cards, 0 below 1. *)
Definition two_card_game : Game :=
  play [ Create_pile "tp"; Create_card "t1" false; Create_card "t2" false;
         Put_card_on_pile 0 "tp"; Put_card_on_pile 1 "tp" ]
       (new_Game test_library 0).

(** Card 1 stacked on card 0 in pile [tp]. *)
Definition stacked_pair_game : Game :=
  play [ Stack_card_on_card 1 0 ] two_card_game.

(** Three pile-less cards: 2 stacked on 1, then 1 stacked on 2, then 0
    stacked on 1.  The chain from card 0 runs into the loop between 1 and 2. *)
Definition tail_into_loop_game : Game :=
  play [ Create_card "t1" false; Create_card "t2" false; Create_card "t3" false;
         Stack_card_on_card 2 1; Stack_card_on_card 1 2;
         Stack_card_on_card 0 1 ]
       (new_Game test_library 0).

(** Pile [tp] holding five cards, 0 at the bottom, in the order of their
    ids: 1 and 3 stacked on 0, and 2 stacked on 1. *)
Definition nested_stack_game : Game :=
  play [ Create_pile "tp";
         Create_card "t1" false; Create_card "t2" false; Create_card "t3" false;
         Create_card "t4" false; Create_card "t5" false;
         Put_card_on_pile 0 "tp"; Put_card_on_pile 1 "tp"; Put_card_on_pile 2 "tp";
         Put_card_on_pile 3 "tp"; Put_card_on_pile 4 "tp";
         Stack_card_on_card 1 0; Stack_card_on_card 3 0; Stack_card_on_card 2 1 ]
       (new_Game test_library 0).

(** Pile [tp] holding three cards: 0 at the bottom, 1 stacked on 0, and
    2 above them on its own. *)
Definition three_card_game : Game :=
  play [ Create_card "t3" false; Put_card_on_pile 2 "tp" ] stacked_pair_game.

(** ** Invariants *)

(** [m] keeps [I], however it ends. *)
Definition preserves {St A} (I : St -> Prop) (m : ST St A) : Prop :=
  forall g, I g -> I (snd (m g)).

(** The invariant behind the stacking relation: the relation is consistent
    in both directions, the cards in [unstacked] are not stacked on
    anything, and card objects that do not exist yet have no stacking
    fields. *)
Record stacking_inv (unstacked : card_ref -> Prop) (g : Game) : Prop :=
  mk_stacking_inv {
    inv_wf : stack_wf g;
    inv_unstacked : forall x, unstacked x -> stacked_on (cards g x) = None;
    inv_fresh : forall c, CURRENT_CARD_ID g <= c ->
                  stacked_on (cards g c) = None /\ stack (cards g c) = None
  }.

(** Between [_unstack_card] and [_stack_cards], [stack_card_on_card] works
    under this invariant. *)
Definition ready_to_stack (a b : card_ref) (g : Game) : Prop :=
  stacking_inv (fun x => x = a) g /\ created g a /\ created g b.

(** Unstacking leaves piles and [pile] fields alone. *)
Definition same_piles (g0 g : Game) : Prop :=
  piles g = piles g0 /\ forall x, pile (cards g x) = pile (cards g0 x).

(** ** Well-formed games *)

(** Same stacking fields, card by card. *)
Definition same_stacking (g0 g : Game) : Prop :=
  forall x, stacked_on (cards g x) = stacked_on (cards g0 x)
         /\ stack (cards g x) = stack (cards g0 x).

(** Membership in [pile.items] matches [card.pile], both ways, and no card
    sits twice in a pile.  Pile ids are non-empty strings. *)
Record pile_wf (g : Game) : Prop := mk_pile_wf {
  pw_member : forall p its c,
    piles g !! p = Some its -> c ∈ its -> pile (cards g c) = Some p;
  pw_nodup : forall p its, piles g !! p = Some its -> NoDup its;
  pw_present : forall c p,
    pile (cards g c) = Some p ->
    p <> "" /\ exists its, piles g !! p = Some its /\ c ∈ its
}.

(** The stacking relation is acyclic: [depth] strictly grows from a card
    to the cards stacked on it, and stays below [bound]. *)
Definition ranked (g : Game) (depth : card_ref -> nat) (bound : nat) : Prop :=
  (forall x y, stacked_on (cards g x) = Some y -> depth y < depth x)
  /\ forall x, depth x <= bound.

(** ** More of the engine *)

(** *** Keys and class names *)

(** The members that every plain object inherits from [Object.prototype].
    A map kept in a plain object answers a lookup of one of these names
    with the inherited member when it has no entry of that name, and an
    assignment to [__proto__] makes no entry at all.  The maps of the
    model have entries only, so what is proved of a map is proved for the
    other keys. *)
Definition Object_prototype_keys : list string :=
  [ "constructor"; "__defineGetter__"; "__defineSetter__"; "hasOwnProperty";
    "__lookupGetter__"; "__lookupSetter__"; "isPrototypeOf";
    "propertyIsEnumerable"; "toString"; "valueOf"; "__proto__";
    "toLocaleString" ].

Definition inherited_key (key : string) : bool :=
  existsb (String.eqb key) Object_prototype_keys.

Definition plain_key (key : string) : Prop := inherited_key key = false.

(** ASCII whitespace: tab, line feed, form feed, carriage return, space.
    [classList.add] and [classList.remove] throw on a token that holds
    one. *)
Definition ascii_whitespace (a : Ascii.ascii) : bool :=
  existsb (Nat.eqb (Ascii.nat_of_ascii a)) [9; 10; 12; 13; 32].

Fixpoint has_whitespace (s : string) : bool :=
  match s with
  | EmptyString => false
  | String a rest => ascii_whitespace a || has_whitespace rest
  end.

(** A string that may be part of a class name. *)
Definition class_token (s : string) : Prop := has_whitespace s = false.

(** The counter of card ids is a number of the engine, a double: adding
    1 to it is exact while it is below 2^53, and changes nothing from
    there on. *)
Definition exact_counter (g : Game) : Prop :=
  (Z.of_nat (CURRENT_CARD_ID g) < 2 ^ 53)%Z.

(** *** Copies *)

(** [copy_nonrecursive_obj]: a deep copy of JSON data.  [depth] is absent
    ([undefined]) in the outermost call.  An object value lists its
    properties in the order of [Object.keys]; assigning [result[key]]
    replaces the property if the copy has it already and appends it
    otherwise, except that assigning [result["__proto__"]] sets the
    prototype of the copy, which the model does not hold, and gives it
    no property. *)
Fixpoint obj_put (key : string) (v : json) (o : list (string * json))
    : list (string * json) :=
  match o with
  | [] => [(key, v)]
  | (k, w) :: rest =>
      if decide (k = key) then (k, v) :: rest else (k, w) :: obj_put key v rest
  end.

Definition obj_set (key : string) (v : json) (o : list (string * json))
    : list (string * json) :=
  if decide (key = "__proto__") then o else obj_put key v o.

Definition obj_get (key : string) (o : list (string * json)) : option json :=
  snd <$> (snd <$> list_find (fun kv => fst kv = key) o).

(** Loops that build [result]. *)
Fixpoint push_each {St A B} (array : list A) (f : A -> ST St B) (result : list B)
    : ST St (list B) :=
  match array with
  | [] => ret result
  | item :: rest => v <- f item ;; push_each rest f (result ++ [v])
  end.

Fixpoint set_each {St} (base_object : list (string * json)) (keys : list string)
    (f : json -> ST St json) (result : list (string * json))
    : ST St (list (string * json)) :=
  match keys with
  | [] => ret result
  | key :: rest =>
      v <- deref (obj_get key base_object) ;;
      v <- f v ;;
      set_each base_object rest f (obj_set key v result)
  end.

Fixpoint copy_nonrecursive_obj {St} (frames : nat) (base_object : json)
    (depth : option Z) : ST St json :=
  match frames with
  | 0 => throw RangeError
  | S frames' =>
      if match depth with Some d => (100000 <? d)%Z | None => false end
      then throw Error
      else
        let depth := default 0%Z depth in
        match base_object with
        | JArr items =>
            result <- push_each items
                        (fun item =>
                           copy_nonrecursive_obj frames' item (Some (depth + 1)%Z))
                        [] ;;
            ret (JArr result)
        | JObj props =>
            result <- set_each props props.*1
                        (fun v => copy_nonrecursive_obj frames' v (Some (depth + 1)%Z))
                        [] ;;
            ret (JObj result)
        | _ => ret base_object
        end
  end.

(** Nesting of a JSON value: 0 for what is immutable and for empty
    containers. *)
Fixpoint json_height (j : json) : nat :=
  match j with
  | JArr items => foldr (fun item h => S (json_height item) `max` h) 0 items
  | JObj props => foldr (fun kv h => S (json_height (snd kv)) `max` h) 0 props
  | _ => 0
  end.

(** No object of a JSON value has two properties of the same name, or a
    property named [__proto__]. *)
Fixpoint json_wf (j : json) : Prop :=
  match j with
  | JArr items => foldr (fun item P => json_wf item /\ P) True items
  | JObj props =>
      NoDup props.*1 /\ ("__proto__" ∉ props.*1)
      /\ foldr (fun kv P => json_wf (snd kv) /\ P) True props
  | _ => True
  end.

(** *** More pile actions *)

(** [remove_pile_from_group].  The class name that the call takes off
    the element of the pile is not modelled: [classList.remove] throws
    when the id of the group holds whitespace, after the list of groups
    was changed. *)
Definition remove_pile_from_group (pile_id pile_group_id : string) : M unit :=
  groups_for_pile <- gets (fun g => pile_groups g !! pile_id) ;;
  groups_for_pile <- deref groups_for_pile ;;
  modify (fun g =>
    mkGame (library g) (cards g) (existing_cards g) (piles g)
      (<[pile_id := remove_item_from_array pile_group_id groups_for_pile]>
         (pile_groups g))
      (console g) (CURRENT_CARD_ID g)) ;;
  _ <- items_of pile_id ;;
  ret tt.

(** [Object.keys] of an object used as a map.  The order in which the keys
    are enumerated is not part of the model. *)
Definition Object_keys {V} (o : gmap string V) : list string := (map_to_list o).*1.

(** The loop of [all_piles_in_group], accumulating [result]. *)
Fixpoint piles_in_group_of (pile_group_id : string) (keys : list string)
    (result : list string) : M (list string) :=
  match keys with
  | [] => ret result
  | grouped_pile_id :: rest =>
      groups <- gets (fun g => pile_groups g !! grouped_pile_id) ;;
      groups <- deref groups ;;
      if (0 <=? indexOf pile_group_id groups)%Z
      then piles_in_group_of pile_group_id rest (result ++ [grouped_pile_id])
      else piles_in_group_of pile_group_id rest result
  end.

Definition all_piles_in_group (pile_group_id : string) : M (list string) :=
  keys <- gets (fun g => Object_keys (pile_groups g)) ;;
  piles_in_group_of pile_group_id keys [].

(** *** More state functions *)

(** [array[index]] for a number [index]: [undefined] outside the array. *)
Definition array_get {A} (array : list A) (index : Z) : option A :=
  if (0 <=? index)%Z then array !! Z.to_nat index else None.

Definition get_card_in_pile (pile_id : string) (position : Z)
    : M (option card_ref) :=
  pile_items <- items_of pile_id ;;
  ret (array_get pile_items position).

Definition all_cards_in_pile (pile_id : string) : M (list card_ref) :=
  items_of pile_id.

Definition top_card_of_pile (pile_id : string) : M (option card_ref) :=
  pile_items <- items_of pile_id ;;
  ret (array_get pile_items (Z.of_nat (length pile_items) - 1)).

Definition bottom_card_of_pile (pile_id : string) : M (option card_ref) :=
  pile_items <- items_of pile_id ;;
  ret (array_get pile_items 0).

Definition card_is_on_top_of_pile (card : card_ref) : M bool :=
  p <- field pile card ;;
  if truthy p then
    pile_items <- items_of (js_key p) ;;
    ret (bool_decide
           (array_get pile_items (Z.of_nat (length pile_items) - 1) = Some card))
  else ret false.

Definition pile_size (pile_id : string) : M Z :=
  pile_items <- items_of pile_id ;;
  ret (Z.of_nat (length pile_items)).

Definition card_has_a_stack (card : card_ref) : M bool :=
  st <- field stack card ;;
  ret (bool_decide (is_Some st)).

(** *** High level game actions *)

(** [new_game]; [cleanup] and [setup] are the functions of the rules, when
    the rules have them. *)
Definition new_game (cleanup setup : option (M unit)) : M unit :=
  default (ret tt) cleanup ;;
  modify (fun g =>
    mkGame (library g) (cards g) [] (piles g) (pile_groups g) (console g)
           (CURRENT_CARD_ID g)) ;;
  keys <- gets (fun g => Object_keys (piles g)) ;;
  for_of keys (fun pile_id => _ <- items_of pile_id ;; modify (set_items pile_id [])) ;;
  default (ret tt) setup.

(** *** Actions and their conditions *)






(** The conditions of actions and their combinators [not], [any] and
    [all].  A condition is called with the game and the pile the action is
    attached to. *)
Module Conditions.

Definition condition := string -> M bool.

Definition not (cond : condition) : condition :=
  fun base_pile_id => met <- cond base_pile_id ;; ret (negb met).

Fixpoint any (conditions : list condition) : condition :=
  fun base_pile_id =>
    match conditions with
    | [] => ret false
    | cond :: rest =>
        met <- cond base_pile_id ;;
        if (met : bool) then ret true else any rest base_pile_id
    end.

Fixpoint all (conditions : list condition) : condition :=
  fun base_pile_id =>
    match conditions with
    | [] => ret true
    | cond :: rest =>
        met <- cond base_pile_id ;;
        if (met : bool) then all rest base_pile_id else ret false
    end.

Definition when_empty (pile_id : string) : condition :=
  fun base_pile_id => size <- pile_size pile_id ;; ret (size =? 0)%Z.

End Conditions.

(** ** Moves in progress *)

(** The state while cards go one by one from pile [s] to the top of pile
    [d], starting from [g0]: [src] and [dst] are what the two piles hold,
    [moved] lists the cards that went over, and [flip] tells whether they
    were turned over on the way. *)
Definition moving (g0 : Game) (flip : bool) (s d : string)
    (src dst moved : list card_ref) (g : Game) : Prop :=
  stack_wf g /\ pile_wf g
  /\ piles g !! s = Some src /\ piles g !! d = Some dst
  /\ (forall q, q <> s -> q <> d -> piles g !! q = piles g0 !! q)
  /\ (forall c, c ∈ moved ->
        pile (cards g c) = Some d /\ stacked_on (cards g c) = None
        /\ stack (cards g c) = None
        /\ face_up (cards g c) = xorb flip (face_up (cards g0 c)))
  /\ (forall c, c ∉ moved ->
        pile (cards g c) = pile (cards g0 c)
        /\ face_up (cards g c) = face_up (cards g0 c))
  /\ pile_groups g = pile_groups g0.

(** ** Libraries under construction *)

(** The calls that build a library. *)
Inductive library_call :=
  | Register_card (card_type_id face_html : string) (props : json)
  | Create_group (group_id : string) (filter : json -> bool).

Definition library_perform (call : library_call) : L unit :=
  match call with
  | Register_card card_type_id face_html props =>
      register_card card_type_id face_html props
  | Create_group group_id filter => create_group group_id filter
  end.

(** The id that a call files its card type or its group under. *)
Definition call_key (call : library_call) : string :=
  match call with
  | Register_card card_type_id _ _ => card_type_id
  | Create_group group_id _ => group_id
  end.

(** Libraries that a program can build with ids that are plain keys; a
    call that throws leaves the library it had reached. *)
Inductive library_reachable : Library -> Prop :=
  | library_new lib_name : library_reachable (new_Library lib_name)
  | library_step lib call :
      library_reachable lib -> plain_key (call_key call) ->
      library_reachable (snd (library_perform call lib)).

(** [all_cards] lists the registered card types, once each; every type is
    filed under its own id; groups hold registered types only; card types
    and groups have plain keys for ids. *)
Record library_wf (lib : Library) : Prop := mk_library_wf {
  lw_plain : forall key, key ∈ all_cards lib \/ key ∈ all_groups lib -> plain_key key;
  lw_nodup : NoDup (all_cards lib);
  lw_data : forall t, t ∈ all_cards lib <-> is_Some (card_data lib !! t);
  lw_id : forall t data, card_data lib !! t = Some data -> ct_id data = t;
  lw_members : forall grp members,
    group_data lib !! grp = Some members ->
    NoDup members /\ forall t, t ∈ members -> t ∈ all_cards lib;
  lw_groups : forall grp, grp ∈ all_groups lib <-> is_Some (group_data lib !! grp)
}.

(** ** The loop of [delete_pile] *)

(** The loop runs over the array that its body shortens: of the cards
    still ahead it visits the first and steps over the second. *)
Fixpoint visited {A} (items : list A) : list A :=
  match items with
  | x :: _ :: rest => x :: visited rest
  | _ => items
  end.

Fixpoint stepped_over {A} (items : list A) : list A :=
  match items with
  | _ :: y :: rest => y :: stepped_over rest
  | _ => []
  end.

(** ** More concrete games *)

(** [stacked_pair_game] with a second, empty pile [dp]. *)
Definition two_pile_game : Game :=
  play [ Create_pile "dp" ] stacked_pair_game.

(** [two_card_game] with pile [tp] in group [g1]. *)
Definition grouped_game : Game :=
  play [ Add_pile_to_group "tp" "g1" ] two_card_game.

(** ** Well-formed games and sound calls *)

(** A stacked card lies in the pile of the card it is stacked on, or
    neither of them is in a pile: no stacking across piles. *)
Definition stacks_in_one_pile (g : Game) : Prop :=
  forall x y, stacked_on (cards g x) = Some y ->
              pile (cards g x) = pile (cards g y).

(** Card objects that [create_card] has not made yet have no field set. *)
Definition fresh_cards (g : Game) : Prop :=
  forall c, CURRENT_CARD_ID g <= c ->
    stacked_on (cards g c) = None /\ stack (cards g c) = None
    /\ pile (cards g c) = None.

(** A game in good order: the stacking relation is consistent and
    acyclic, the piles and the [pile] fields agree, no card is stacked
    across piles, and the cards still to be created are blank. *)
Record well_formed (g : Game) : Prop := mk_well_formed {
  g_stacking : stack_wf g;
  g_piles : pile_wf g;
  g_acyclic : exists depth bound, ranked g depth bound;
  g_one_pile : stacks_in_one_pile g;
  g_fresh : fresh_cards g
}.



(** * Properties *)

(** ** Arrays *)

Section array_facts.
Context {A : Type} `{EqDecision A}.
Implicit Types (x item : A) (l array : list A).

Lemma remove_item_nil item : remove_item_from_array item [] = [].
Proof. reflexivity. Qed.

Lemma remove_item_cons item x l :
  remove_item_from_array item (x :: l) =
  if decide (x = item) then l else x :: remove_item_from_array item l.
Proof.
  unfold remove_item_from_array, indexOf. simpl.
  destruct (decide (x = item)) as [->|Hne]; [reflexivity|].
  destruct (first_index item l) as [i|]; simpl; [|reflexivity].
  replace (0 <=? Z.of_nat (S i))%Z with true by (symmetry; apply Z.leb_le; lia).
  replace (0 <=? Z.of_nat i)%Z with true by (symmetry; apply Z.leb_le; lia).
  rewrite !Nat2Z.id. reflexivity.
Qed.

Lemma first_index_None item l : first_index item l = None <-> item ∉ l.
Proof.
  induction l as [|x l IH]; simpl.
  - split; [intros _; apply not_elem_of_nil | reflexivity].
  - destruct (decide (x = item)) as [->|Hne].
    + split; [discriminate | intros H; exfalso; apply H; left].
    + rewrite not_elem_of_cons. destruct (first_index item l); simpl.
      * split; [discriminate | intros [_ H]; apply IH in H; discriminate].
      * split; [intros _; split; [congruence | apply IH; reflexivity] | reflexivity].
Qed.

Lemma first_index_Some item l i :
  first_index item l = Some i ->
  l !! i = Some item /\ item ∉ take i l.
Proof.
  revert i. induction l as [|x l IH]; simpl; intros i Hi; [discriminate|].
  destruct (decide (x = item)) as [->|Hne].
  - injection Hi as <-. split; [reflexivity | apply not_elem_of_nil].
  - destruct (first_index item l) as [k|]; simpl in Hi; [|discriminate].
    injection Hi as <-. destruct (IH k eq_refl) as [H1 H2].
    split; [exact H1|]. simpl. rewrite not_elem_of_cons. split; congruence.
Qed.

Lemma first_index_elem item l : item ∈ l -> is_Some (first_index item l).
Proof.
  intros H. destruct (first_index item l) eqn:E; [eauto|].
  apply first_index_None in E. contradiction.
Qed.


Lemma remove_item_sublist item l : remove_item_from_array item l `sublist_of` l.
Proof.
  induction l as [|x l IH]; [reflexivity|]. rewrite remove_item_cons.
  destruct (decide (x = item)); [apply sublist_cons | apply sublist_skip]; auto.
Qed.

Lemma remove_item_elem item x l :
  x ∈ remove_item_from_array item l -> x ∈ l.
Proof. intros H. eapply elem_of_sublist; [exact H | apply remove_item_sublist]. Qed.

Lemma remove_item_NoDup item l : NoDup l -> NoDup (remove_item_from_array item l).
Proof. intros H. exact (sublist_NoDup _ _ H (remove_item_sublist item l)). Qed.

Lemma remove_item_elem_ne item x l :
  x <> item -> x ∈ l -> x ∈ remove_item_from_array item l.
Proof.
  intros Hne. induction l as [|y l IH]; [intros H; inversion H|].
  rewrite remove_item_cons, elem_of_cons.
  destruct (decide (y = item)) as [->|Hy]; intros [->|H]; try congruence; auto.
  - left.
  - right; auto.
Qed.

Lemma remove_item_gone item l : NoDup l -> item ∉ remove_item_from_array item l.
Proof.
  induction l as [|y l IH]; [intros _; apply not_elem_of_nil|].
  rewrite NoDup_cons, remove_item_cons. intros [Hy Hl].
  destruct (decide (y = item)) as [->|Hne]; [exact Hy|].
  rewrite not_elem_of_cons. split; [congruence | auto].
Qed.

Lemma remove_item_length item l :
  item ∈ l -> S (length (remove_item_from_array item l)) = length l.
Proof.
  induction l as [|y l IH]; [intros H; inversion H|].
  rewrite remove_item_cons, elem_of_cons.
  destruct (decide (y = item)) as [->|Hne]; [reflexivity|].
  intros [->|H]; [congruence|]. simpl. rewrite IH; auto.
Qed.

End array_facts.

(** ** Running monadic code *)

Section run.
Context {St : Type}.

Lemma run_bind_ret {A B} (m : ST St A) (k : A -> ST St B) g a g' :
  m g = (Ret a, g') -> bind m k g = k a g'.
Proof. unfold bind. intros ->. reflexivity. Qed.

Lemma run_bind_throw {A B} (m : ST St A) (k : A -> ST St B) g e g' :
  m g = (Throw e, g') -> bind m k g = (Throw e, g').
Proof. unfold bind. intros ->. reflexivity. Qed.
End run.

(** Steps through the monad's plumbing, leaving the methods themselves
    folded. *)
Lemma run_bind_gets {St A B} (f : St -> A) (k : A -> ST St B) g :
  bind (gets f) k g = k (f g) g.
Proof. reflexivity. Qed.

Lemma run_bind_modify {St B} (f : St -> St) (k : unit -> ST St B) g :
  bind (modify f) k g = k tt (f g).
Proof. reflexivity. Qed.

Lemma run_bind_pure {St A B} (a : A) (k : A -> ST St B) g :
  bind (ret a) k g = k a g.
Proof. reflexivity. Qed.

Lemma run_bind_field {A B} (f : Card -> A) c (k : A -> M B) g :
  bind (field f c) k g = k (f (cards g c)) g.
Proof. reflexivity. Qed.

Lemma run_bind_assign {B} c f (k : unit -> M B) g :
  bind (assign c f) k g = k tt (upd_card c f g).
Proof. reflexivity. Qed.

Lemma run_bind_bind {St A B C} (m : ST St A) (k : A -> ST St B) (h : B -> ST St C) g :
  bind (bind m k) h g = bind m (fun a => bind (k a) h) g.
Proof. unfold bind. destruct (m g) as [[a|e] g']; reflexivity. Qed.

Lemma run_items_of g p its : piles g !! p = Some its -> items_of p g = (Ret its, g).
Proof. intros H. unfold items_of, bind, gets. rewrite H. reflexivity. Qed.

Lemma run_bind_items_of {B} g p its (k : list card_ref -> M B) :
  piles g !! p = Some its -> bind (items_of p) k g = k its g.
Proof. intros H. apply run_bind_ret, run_items_of, H. Qed.

Ltac mrun :=
  repeat progress
    (rewrite ?run_bind_gets, ?run_bind_modify, ?run_bind_pure, ?run_bind_field,
             ?run_bind_assign; cbv beta).

(** ** Self-stacking *)

(** C2: [stack_card_on_card(a, a)] throws before touching anything; the
    state it leaves is the state it was given, whatever that state is. *)
Theorem stack_card_on_card_self (frames : nat) (g : Game) (a : card_ref) :
  stack_card_on_card frames a a g = (Throw InternalError, g).
Proof.
  unfold stack_card_on_card. destruct (decide (a = a)); [reflexivity | congruence].
Qed.

(** ** Flipping *)

(** C10: [flip_card] returns normally, sets [face_up] to its negation when
    the second argument is omitted and to the given boolean otherwise, and
    changes nothing else: piles, pile groups, and every other field of every
    card are as before. *)
Theorem flip_card_frame (g : Game) (card : card_ref) (put_face_up : option bool) :
  let r := flip_card card put_face_up g in
  fst r = Ret tt
  /\ face_up (cards (snd r) card)
     = match put_face_up with
       | None => negb (face_up (cards g card))
       | Some b => b
       end
  /\ piles (snd r) = piles g
  /\ pile_groups (snd r) = pile_groups g
  /\ (forall c, pile (cards (snd r) c) = pile (cards g c)
             /\ stacked_on (cards (snd r) c) = stacked_on (cards g c)
             /\ stack (cards (snd r) c) = stack (cards g c)
             /\ type (cards (snd r) c) = type (cards g c))
  /\ (forall c, c <> card -> cards (snd r) c = cards g c).
Proof.
  assert (Hsame : decide (card = card) = left eq_refl).
  { destruct (decide (card = card)) as [e|]; [|congruence].
    f_equal. apply (proof_irrel e). }
  destruct put_face_up as [b|]; cbn -[decide]; rewrite ?Hsame; cbn -[decide];
    (split; [reflexivity|]; split; [reflexivity|]; split; [reflexivity|];
     split; [reflexivity|]; split;
     [ intros c; destruct (decide (c = card)); auto
     | intros c Hc; destruct (decide (c = card)); [congruence | reflexivity] ]).
Qed.

(** ** Top of stack *)

Lemma card_is_on_top_of_stack_stacked_leaf g card parent l :
  stack (cards g card) = None ->
  stacked_on (cards g card) = Some parent ->
  stack (cards g parent) = Some l ->
  card_is_on_top_of_stack card g = (Throw ReferenceError, g).
Proof.
  intros Hst Hon Hl. unfold card_is_on_top_of_stack, position_in_stack, field, bind, gets.
  rewrite Hst, Hon. simpl. rewrite Hon. simpl. rewrite Hl. reflexivity.
Qed.

Lemma card_is_on_top_of_stack_unstacked g card :
  stack (cards g card) = None -> stacked_on (cards g card) = None ->
  card_is_on_top_of_stack card g = (Ret true, g).
Proof.
  intros Hst Hon. unfold card_is_on_top_of_stack. mrun. rewrite Hst, Hon. reflexivity.
Qed.

Lemma card_is_on_top_of_stack_base g card l :
  stack (cards g card) = Some l ->
  card_is_on_top_of_stack card g = (Ret false, g).
Proof.
  intros Hst. unfold card_is_on_top_of_stack. mrun. rewrite Hst.
  destruct (stacked_on (cards g card)); reflexivity.
Qed.

(** C9 (failing input): with card 1 stacked on card 0 and nothing stacked
    on card 1, [card_is_on_top_of_stack] does not return: evaluating the
    undeclared [base] raises a [ReferenceError]. *)
Theorem card_is_on_top_of_stack_throws :
  stacked_on (cards stacked_pair_game 1) = Some 0
  /\ stack (cards stacked_pair_game 1) = None
  /\ stack (cards stacked_pair_game 0) = Some [1]
  /\ fst (card_is_on_top_of_stack 1 stacked_pair_game) = Throw ReferenceError.
Proof.
  assert (H1 : stacked_on (cards stacked_pair_game 1) = Some 0) by (vm_compute; reflexivity).
  assert (H2 : stack (cards stacked_pair_game 1) = None) by (vm_compute; reflexivity).
  assert (H3 : stack (cards stacked_pair_game 0) = Some [1]) by (vm_compute; reflexivity).
  split; [exact H1|]. split; [exact H2|]. split; [exact H3|].
  rewrite (card_is_on_top_of_stack_stacked_leaf _ _ _ _ H2 H1 H3). reflexivity.
Qed.

(** ** Stack roots *)

Lemma stack_root_pure frames g card orig : snd (stack_root frames card orig g) = g.
Proof.
  revert card orig. induction frames as [|f IH]; intros card orig; simpl; [reflexivity|].
  unfold bind, field, gets. simpl.
  destruct (stacked_on (cards g card)); [|reflexivity].
  destruct (decide (orig = Some card)); [reflexivity | apply IH].
Qed.

Lemma stack_root_in_loop g a b start frames c :
  stacked_on (cards g a) = Some b ->
  stacked_on (cards g b) = Some a ->
  start <> a -> start <> b ->
  c = a \/ c = b ->
  fst (stack_root frames c (Some start) g) = Throw RangeError.
Proof.
  intros Ha Hb Hsa Hsb. revert c.
  induction frames as [|f IH]; intros c Hc; simpl; [reflexivity|].
  unfold bind, field, gets. simpl.
  destruct Hc as [-> | ->].
  - rewrite Ha. destruct (decide (Some start = Some a)); [congruence|].
    simpl. apply IH. right; reflexivity.
  - rewrite Hb. destruct (decide (Some start = Some b)); [congruence|].
    simpl. apply IH. left; reflexivity.
Qed.

(** C8 (failing input): card 0 is stacked on card 1, and cards 1 and 2 are
    stacked on each other.  The traversal from card 0 never comes back to
    card 0 and never finds an unstacked card: whatever the depth of the call
    stack, [stack_root] exhausts it. *)
Theorem stack_root_tail_into_loop (frames : nat) :
  fst (stack_root frames 0 None tail_into_loop_game) = Throw RangeError.
Proof.
  assert (H0 : stacked_on (cards tail_into_loop_game 0) = Some 1) by (vm_compute; reflexivity).
  assert (H1 : stacked_on (cards tail_into_loop_game 1) = Some 2) by (vm_compute; reflexivity).
  assert (H2 : stacked_on (cards tail_into_loop_game 2) = Some 1) by (vm_compute; reflexivity).
  destruct frames as [|f]; [reflexivity|].
  cbn [stack_root]. mrun. rewrite H0.
  destruct (decide (None = Some 0)); [discriminate|]. cbn [default].
  apply (stack_root_in_loop _ 1 2); auto.
Qed.

(** What the traversal does get right: in an acyclic game it ends at the
    unstacked base of the chain, and when the chain leads back to the card
    it started from it answers with the card that one is stacked on. *)
Lemma stack_root_descends g depth bound frames :
  ranked g depth bound ->
  forall c orig,
    (forall o, orig = Some o -> depth c < depth o) ->
    depth c < frames ->
    exists n base,
      stack_root frames c orig g = (Ret base, g)
      /\ nth_stacked_on g n c = Some base
      /\ stacked_on (cards g base) = None.
Proof.
  intros [Hstep _]. induction frames as [|f IH]; intros c orig Horig Hfr; [lia|].
  cbn [stack_root]. mrun.
  destruct (stacked_on (cards g c)) as [y|] eqn:Hy.
  - destruct (decide (orig = Some c)) as [Heq|Hne].
    { specialize (Horig c Heq). lia. }
    pose proof (Hstep c y Hy) as Hlt.
    destruct (IH y (Some (default c orig))) as (n & base & Hrun & Hn & Hb); [|lia|].
    { intros o [= <-]. destruct orig as [o|]; simpl; [|exact Hlt].
      specialize (Horig o eq_refl). lia. }
    exists (S n), base. split; [exact Hrun|]. split; [|exact Hb].
    cbn [nth_stacked_on]. rewrite Hy. exact Hn.
  - exists 0, c. auto.
Qed.

Lemma stack_root_acyclic g depth bound frames card :
  ranked g depth bound -> depth card < frames ->
  exists n base,
    stack_root frames card None g = (Ret base, g)
    /\ nth_stacked_on g n card = Some base
    /\ stacked_on (cards g base) = None.
Proof.
  intros Hr Hfr. apply (stack_root_descends g depth bound frames Hr); [|exact Hfr].
  intros o [=].
Qed.

Lemma stack_root_back_to_start g card parent :
  stacked_on (cards g card) = Some parent ->
  forall n c frames,
    nth_stacked_on g n c = Some card -> n < frames ->
    stack_root frames c (Some card) g = (Ret parent, g).
Proof.
  intros Hp. induction n as [|n IH]; intros c frames Hn Hfr;
    (destruct frames as [|f]; [lia|]); cbn [stack_root nth_stacked_on] in *; mrun.
  - injection Hn as ->. rewrite Hp.
    destruct (decide (Some card = Some card)); [reflexivity | congruence].
  - destruct (stacked_on (cards g c)) as [y|] eqn:Hy; [|discriminate].
    destruct (decide (Some card = Some c)) as [[= ->]|Hne].
    { assert (y = parent) by congruence. subst y. reflexivity. }
    cbn [default]. apply IH; [exact Hn | lia].
Qed.

Lemma stack_root_circular g card parent n frames :
  stacked_on (cards g card) = Some parent ->
  nth_stacked_on g n parent = Some card ->
  n + 1 < frames ->
  stack_root frames card None g = (Ret parent, g).
Proof.
  intros Hp Hn Hfr. destruct frames as [|f]; [lia|].
  cbn [stack_root]. mrun. rewrite Hp.
  destruct (decide (None = Some card)); [discriminate|]. cbn [default].
  apply (stack_root_back_to_start g card parent Hp n); [exact Hn | lia].
Qed.

(** ** Groups of card types *)

Lemma group_members_of_outcome filter types acc lib :
  (exists members, group_members_of filter types acc lib = (Ret members, lib))
  \/ group_members_of filter types acc lib = (Throw TypeError, lib).
Proof.
  revert acc. induction types as [|t ts IH]; intros acc; simpl.
  - left. eexists. reflexivity.
  - unfold bind, gets. simpl.
    destruct (card_data lib !! t) as [d|]; simpl; [|right; reflexivity].
    destruct (filter (properties d)); apply IH.
Qed.

(** No library and no group id make [create_group] report a duplicate. *)
Lemma create_group_no_duplicate_check group_id filter lib :
  fst (create_group group_id filter lib) <> Throw Error.
Proof.
  unfold create_group, bind, gets. simpl.
  destruct (group_members_of_outcome filter (all_cards lib) [] lib)
    as [[members ->] | ->]; simpl; discriminate.
Qed.

(** C7 (failing input): the test library already has the group [evens]
    with members [t2; t4]; creating [evens] again returns normally and
    replaces the member list (and lists the group id twice). *)
Theorem create_group_overwrites :
  group_data test_library !! "evens" = Some ["t2"; "t4"]
  /\ let r := create_group "evens" is_odd test_library in
     fst r = Ret tt
     /\ group_data (snd r) !! "evens" = Some ["t1"; "t3"; "t5"]
     /\ all_groups (snd r) = ["evens"; "evens"].
Proof. vm_compute. repeat split. Qed.

(** ** Cycle-violating inserts *)

Lemma has_stack_ancestor_pure frames g card ancestor :
  snd (has_stack_ancestor frames card ancestor g) = g.
Proof.
  revert card. induction frames as [|f IH]; intros card; simpl; [reflexivity|].
  destruct (decide (card = ancestor)); [reflexivity|].
  unfold bind, field, gets. simpl.
  destruct (stacked_on (cards g card)); [apply IH | reflexivity].
Qed.

Lemma has_stack_ancestor_found g ancestor n :
  forall card frames,
    nth_stacked_on g n card = Some ancestor -> n < frames ->
    has_stack_ancestor frames card ancestor g = (Ret true, g).
Proof.
  induction n as [|n IH]; intros card frames Hn Hlt;
    (destruct frames as [|f]; [lia|]); simpl in *.
  - injection Hn as ->. destruct (decide (ancestor = ancestor)); [reflexivity | congruence].
  - destruct (decide (card = ancestor)); [reflexivity|].
    unfold bind, field, gets. simpl.
    destruct (stacked_on (cards g card)) as [y|]; [|discriminate].
    apply IH; [exact Hn | lia].
Qed.

Lemma has_stack_ancestor_on_chain g ancestor frames :
  forall n card,
    nth_stacked_on g n card = Some ancestor ->
    has_stack_ancestor frames card ancestor g = (Ret true, g)
    \/ has_stack_ancestor frames card ancestor g = (Throw RangeError, g).
Proof.
  induction frames as [|f IH]; intros n card Hn; [right; reflexivity|].
  cbn [has_stack_ancestor].
  destruct (decide (card = ancestor)); [left; reflexivity|]. mrun.
  destruct n as [|n]; cbn [nth_stacked_on] in Hn; [congruence|].
  destruct (stacked_on (cards g card)) as [y|]; [|discriminate].
  apply (IH n y Hn).
Qed.

(** C3: when [card] is reached from [insert_after] by following
    [stacked_on] links ([n] of them; [n = 0] is [insert_after] itself),
    [insert_stack_into_pile_after] never changes a pile or a card object;
    with room on the call stack for the traversal it returns normally and
    appends one entry to the console. *)
Theorem insert_after_own_stack_refused
    (g : Game) (card insert_after : card_ref) (n frames : nat) :
  nth_stacked_on g n insert_after = Some card ->
  let r := insert_stack_into_pile_after frames card insert_after g in
  piles (snd r) = piles g
  /\ pile_groups (snd r) = pile_groups g
  /\ cards (snd r) = cards g
  /\ (n + 2 <= frames ->
      fst r = Ret tt
      /\ console (snd r) = console g ++ [InsertAfterOwnStack card insert_after]).
Proof.
  intros Hn. cbv zeta. destruct frames as [|f].
  { cbn. do 3 (split; [reflexivity|]). intros; lia. }
  cbn [insert_stack_into_pile_after].
  destruct (Nat.le_gt_cases (n + 1) f) as [Hle|Hgt].
  - rewrite (run_bind_ret _ _ _ _ _
               (has_stack_ancestor_found g card n insert_after f Hn ltac:(lia))).
    cbn. auto.
  - destruct (has_stack_ancestor_on_chain g card f n insert_after Hn) as [H|H].
    + rewrite (run_bind_ret _ _ _ _ _ H). cbn.
      do 3 (split; [reflexivity|]). intros; lia.
    + rewrite (run_bind_throw _ _ _ _ _ H). cbn.
      do 3 (split; [reflexivity|]). intros; lia.
Qed.

Lemma insert_after_own_stack_refused_witness :
  let r := insert_stack_into_pile_after 8 0 1 stacked_pair_game in
  piles (snd r) = piles stacked_pair_game
  /\ pile_groups (snd r) = pile_groups stacked_pair_game
  /\ cards (snd r) = cards stacked_pair_game
  /\ (1 + 2 <= 8 ->
      fst r = Ret tt
      /\ console (snd r) = console stacked_pair_game ++ [InsertAfterOwnStack 0 1]).
Proof.
  apply (insert_after_own_stack_refused stacked_pair_game 0 1 1 8).
  vm_compute. reflexivity.
Defined.

(** ** Rules for invariants *)

Section preserves_rules.
Context {St : Type} (I : St -> Prop).

Lemma preserves_ret {A} (a : A) : preserves I (ret a).
Proof. intros g H. exact H. Qed.

Lemma preserves_throw {A} (e : exn) : preserves I (@throw St A e).
Proof. intros g H. exact H. Qed.

Lemma preserves_gets {A} (f : St -> A) : preserves I (gets f).
Proof. intros g H. exact H. Qed.

Lemma preserves_deref {A} (o : option A) : preserves I (deref o).
Proof. destruct o; [apply preserves_ret | apply preserves_throw]. Qed.

Lemma preserves_unbound {A} (id : string) : preserves I (@unbound_identifier St A id).
Proof. apply preserves_throw. Qed.

Lemma preserves_modify (f : St -> St) :
  (forall g, I g -> I (f g)) -> preserves I (modify f).
Proof. intros Hf g H. apply Hf, H. Qed.

Lemma preserves_bind {A B} (m : ST St A) (k : A -> ST St B) :
  preserves I m -> (forall a, preserves I (k a)) -> preserves I (bind m k).
Proof.
  intros Hm Hk g H. unfold bind. specialize (Hm g H).
  destruct (m g) as [[a|e] g']; simpl in *; [apply Hk, Hm | exact Hm].
Qed.

Lemma preserves_for_of {A} (l : list A) (body : A -> ST St unit) :
  (forall x, preserves I (body x)) -> preserves I (for_of l body).
Proof.
  intros Hb. induction l as [|x l IH]; simpl.
  - apply preserves_ret.
  - apply preserves_bind; [apply Hb | intros _; exact IH].
Qed.

Lemma preserves_for_of_live {A} (read : St -> option (list A))
    (body : A -> ST St unit) (budget index : nat) :
  (forall x, preserves I (body x)) ->
  preserves I (for_of_live read body budget index).
Proof.
  intros Hb. revert index. induction budget as [|n IH]; intros index; simpl.
  - apply preserves_ret.
  - apply preserves_bind; [apply preserves_gets|]. intros [l|]; [|apply preserves_ret].
    destruct (l !! index); [|apply preserves_ret].
    apply preserves_bind; [apply Hb | intros _; apply IH].
Qed.

Lemma preserves_for_of_array {A} (read : St -> option (list A))
    (body : A -> ST St unit) :
  (forall x, preserves I (body x)) -> preserves I (for_of_array read body).
Proof.
  intros Hb. apply preserves_bind; [apply preserves_gets|].
  intros a. apply preserves_for_of_live, Hb.
Qed.
End preserves_rules.

Ltac pres_step :=
  lazymatch goal with
  | |- preserves _ (ret _) => apply preserves_ret
  | |- preserves _ (throw _) => apply preserves_throw
  | |- preserves _ (gets _) => apply preserves_gets
  | |- preserves _ (field _ _) => apply preserves_gets
  | |- preserves _ (deref _) => apply preserves_deref
  | |- preserves _ (unbound_identifier _) => apply preserves_unbound
  | |- preserves _ (items_of _) =>
      apply preserves_bind; [apply preserves_gets | intros ?; apply preserves_deref]
  | |- preserves _ (bind _ _) => apply preserves_bind; [|intros ?]
  | |- preserves _ (for_of _ _) => apply preserves_for_of; intros ?
  | |- preserves _ (for_of_array _ _) => apply preserves_for_of_array; intros ?
  | |- preserves _ (if ?b then _ else _) => destruct b
  | |- preserves _ (match ?x with _ => _ end) => destruct x
  end.

Ltac pres := repeat pres_step.

(** ** Methods that only unstack *)

(** Everything below [_stack_cards] changes the game through four steps
    only: replacing a pile's item list, writing a card's [pile] field,
    logging, and [_unstack_card].  An invariant kept by these four is kept
    by every method built from them. *)
Section stable.
Variable I : Game -> Prop.
Hypothesis I_set_items : forall p its g, I g -> I (set_items p its g).
Hypothesis I_set_pile : forall c p g, I g -> I (upd_card c (set_pile p) g).
Hypothesis I_log : forall e g, I g -> I (log_error e g).
Hypothesis I_unstack : forall c, preserves I (_unstack_card c).

Lemma stable_remove_card card : preserves I (_remove_card_from_pile card).
Proof.
  unfold _remove_card_from_pile, assign. pres.
  - apply preserves_modify. intros g; apply I_set_items.
  - apply preserves_modify. intros g; apply I_set_pile.
Qed.

Lemma stable_remove_stack frames card :
  preserves I (_remove_stack_from_pile frames card).
Proof.
  revert card. induction frames as [|f IH]; intros card; simpl; pres.
  - apply stable_remove_card.
  - apply IH.
Qed.

Lemma stable_unstack_all_from card : preserves I (unstack_all_from card).
Proof. unfold unstack_all_from. pres. apply I_unstack. Qed.

Lemma stable_has_stack_ancestor frames card ancestor :
  preserves I (has_stack_ancestor frames card ancestor).
Proof. intros g H. rewrite has_stack_ancestor_pure. exact H. Qed.

Lemma stable_position_in_pile card : preserves I (position_in_pile card).
Proof. unfold position_in_pile. pres. Qed.

Lemma stable_insert_stack frames card insert_after :
  preserves I (insert_stack_into_pile_after frames card insert_after).
Proof.
  revert card insert_after.
  induction frames as [|f IH]; intros card insert_after; simpl; pres;
    try apply I_unstack; try apply stable_position_in_pile;
    try apply stable_remove_stack; try apply stable_has_stack_ancestor;
    try apply IH;
    try (apply preserves_modify; intros g; first [apply I_log | apply I_set_items | apply I_set_pile]).
Qed.

Lemma stable_unstack_card frames card : preserves I (unstack_card frames card).
Proof.
  unfold unstack_card. pres; try apply I_unstack; apply stable_insert_stack.
Qed.

Lemma stable_remove_card_from_pile frames card :
  preserves I (remove_card_from_pile frames card).
Proof.
  unfold remove_card_from_pile. pres;
    [apply stable_unstack_all_from | apply stable_unstack_card | apply stable_remove_card].
Qed.

Lemma stable_remove_stack_from_pile frames card :
  preserves I (remove_stack_from_pile frames card).
Proof.
  unfold remove_stack_from_pile. pres; [apply I_unstack | apply stable_remove_stack].
Qed.

Lemma stable_insert_card frames card insert_after :
  preserves I (insert_card_into_pile_after frames card insert_after).
Proof.
  unfold insert_card_into_pile_after. pres;
    [apply I_unstack | apply stable_unstack_all_from | apply stable_insert_stack].
Qed.

Lemma stable_put_stack frames card pile_id :
  preserves I (put_stack_on_pile frames card pile_id).
Proof.
  revert card. induction frames as [|f IH]; intros card; simpl; pres;
    try apply I_unstack; try apply stable_remove_stack; try apply IH;
    try (apply preserves_modify; intros g; first [apply I_set_items | apply I_set_pile]).
Qed.

Lemma stable_put_card frames card pile_id :
  preserves I (put_card_on_pile frames card pile_id).
Proof.
  unfold put_card_on_pile. pres;
    [apply I_unstack | apply stable_unstack_all_from | apply stable_put_stack].
Qed.

Lemma stable_shuffle_from random pile_id i :
  preserves I (shuffle_from random pile_id i).
Proof.
  induction i as [|i IH]; simpl; pres; [|exact IH].
  apply preserves_modify. intros g; apply I_set_items.
Qed.

Lemma stable_shuffle_pile random pile_id : preserves I (shuffle_pile random pile_id).
Proof.
  unfold shuffle_pile. pres; [apply stable_unstack_all_from | apply stable_shuffle_from].
Qed.
End stable.

(** ** Deleting a pile *)

(** What [delete_pile] does keep: no stacking field of any card changes,
    however the call ends. *)
Lemma delete_pile_same_stacking g pile_id :
  same_stacking g (snd (delete_pile pile_id g)).
Proof.
  assert (H : preserves (same_stacking g) (delete_pile pile_id)).
  { unfold delete_pile. pres.
    - apply stable_remove_card.
      + intros p its g' Hs y. apply Hs.
      + intros c p g' Hs y. cbn -[decide]. destruct (decide (y = c)); apply Hs.
    - apply preserves_modify. intros g' Hs y. apply Hs. }
  apply H. intros y. auto.
Qed.

(** C6 (failing input): pile [tp] holds cards 0 and 1.  [delete_pile]
    returns and removes the pile, but its loop skips card 1, whose [pile]
    field still names the deleted pile. *)
Theorem delete_pile_skips_cards :
  piles two_card_game !! "tp" = Some [0; 1]
  /\ let r := delete_pile "tp" two_card_game in
     fst r = Ret tt
     /\ piles (snd r) !! "tp" = None
     /\ pile (cards (snd r) 0) = None
     /\ pile (cards (snd r) 1) = Some "tp".
Proof. vm_compute. repeat split. Qed.
(** ** The two stacking primitives *)

Ltac goal_decide :=
  match goal with
  | |- context [decide ?P] => destruct (decide P)
  end.



Lemma unstack_noop g c :
  stacked_on (cards g c) = None -> _unstack_card c g = (Ret tt, g).
Proof. intros H. unfold _unstack_card, bind, field, gets. rewrite H. reflexivity. Qed.

Lemma unstack_stacked_on g c x :
  stacked_on (cards (snd (_unstack_card c g)) x)
  = if decide (x = c) then None else stacked_on (cards g x).
Proof.
  unfold _unstack_card, bind, field, gets, assign, modify. cbn -[decide].
  destruct (stacked_on (cards g c)) as [p|] eqn:Hon; cbn -[decide].
  - destruct (decide (p = c)) as [->|Hpc]; cbn -[decide].
    + destruct (stack (cards g c)) as [l|]; cbn -[decide];
        [destruct (decide (length (remove_item_from_array c l) = 0))|];
        cbn -[decide]; destruct (decide (x = c)); reflexivity.
    + destruct (stack (cards g p)) as [l|]; cbn -[decide];
        [destruct (decide (length (remove_item_from_array c l) = 0))|];
        cbn -[decide]; destruct (decide (x = p)), (decide (x = c)); reflexivity.
  - destruct (decide (x = c)) as [->|]; [exact Hon | reflexivity].
Qed.

Lemma unstack_stack g c p l y :
  stacked_on (cards g c) = Some p ->
  stack (cards g p) = Some l ->
  stack (cards (snd (_unstack_card c g)) y)
  = if decide (y = p)
    then (if decide (length (remove_item_from_array c l) = 0) then None
          else Some (remove_item_from_array c l))
    else stack (cards g y).
Proof.
  intros Hon Hst.
  unfold _unstack_card, bind, field, gets, assign, modify. cbn -[decide].
  rewrite Hon. cbn -[decide].
  destruct (decide (p = c)) as [->|Hpc]; cbn -[decide]; rewrite Hst; cbn -[decide].
  - destruct (decide (length (remove_item_from_array c l) = 0)); cbn -[decide];
      destruct (decide (y = c)); reflexivity.
  - destruct (decide (length (remove_item_from_array c l) = 0)); cbn -[decide];
      destruct (decide (y = p)), (decide (y = c)); reflexivity.
Qed.

Lemma unstack_returns g c p l :
  stacked_on (cards g c) = Some p ->
  stack (cards g p) = Some l ->
  fst (_unstack_card c g) = Ret tt.
Proof.
  intros Hon Hst.
  unfold _unstack_card, bind, field, gets, assign, modify. cbn -[decide].
  rewrite Hon. cbn -[decide].
  destruct (decide (p = c)) as [->|Hpc]; cbn -[decide]; rewrite Hst; cbn -[decide];
    destruct (decide (length (remove_item_from_array c l) = 0)); reflexivity.
Qed.

(** What [_unstack_card] never touches. *)
Lemma unstack_layout g c :
  let g' := snd (_unstack_card c g) in
  piles g' = piles g /\ pile_groups g' = pile_groups g
  /\ console g' = console g /\ CURRENT_CARD_ID g' = CURRENT_CARD_ID g
  /\ library g' = library g /\ existing_cards g' = existing_cards g
  /\ forall x, pile (cards g' x) = pile (cards g x)
            /\ face_up (cards g' x) = face_up (cards g x)
            /\ type (cards g' x) = type (cards g x).
Proof.
  unfold _unstack_card, bind, field, gets, assign, modify. cbn -[decide].
  destruct (stacked_on (cards g c)) as [p|]; cbn -[decide]; [|auto 10].
  destruct (stack (cards g c)) as [l1|] eqn:E1, (stack (cards g p)) as [l2|] eqn:E2;
    destruct (decide (p = c)) as [->|Hpc]; cbn -[decide];
    rewrite ?E1, ?E2; cbn -[decide];
    try match goal with
        | |- context [decide (length ?k = 0)] => destruct (decide (length k = 0))
        end;
    cbn -[decide];
    (split; [reflexivity|]; split; [reflexivity|]; split; [reflexivity|];
     split; [reflexivity|]; split; [reflexivity|]; split; [reflexivity|];
     intros x; repeat match goal with
                      | |- context [decide (x = ?k)] => destruct (decide (x = k))
                      end; auto).
Qed.

Lemma stack_cards_run g a b :
  let g' := snd (_stack_cards a b g) in
  fst (_stack_cards a b g) = Ret tt
  /\ (forall x, stacked_on (cards g' x)
                = if decide (x = a) then Some b else stacked_on (cards g x))
  /\ (forall y, stack (cards g' y)
                = if decide (y = b)
                  then Some (default [] (stack (cards g b)) ++ [a])
                  else stack (cards g y))
  /\ CURRENT_CARD_ID g' = CURRENT_CARD_ID g
  /\ piles g' = piles g
  /\ (forall x, pile (cards g' x) = pile (cards g x)).
Proof.
  unfold _stack_cards, bind, field, gets, assign, modify. cbn -[decide].
  destruct (decide (b = a)) as [->|Hba]; cbn -[decide].
  - destruct (stack (cards g a)) as [l|]; cbn -[decide];
      (split; [reflexivity|]; split; [|split; [|split; [reflexivity|split; [reflexivity|]]]];
       intros x; destruct (decide (x = a)); reflexivity).
  - destruct (stack (cards g b)) as [l|]; cbn -[decide];
      (split; [reflexivity|]; split; [|split; [|split; [reflexivity|split; [reflexivity|]]]];
       intros x; destruct (decide (x = b)), (decide (x = a)); try reflexivity; congruence).
Qed.

(** ** The stacking invariant *)

Lemma stacking_inv_ext u g g' :
  (forall x, stacked_on (cards g' x) = stacked_on (cards g x)
          /\ stack (cards g' x) = stack (cards g x)) ->
  CURRENT_CARD_ID g' = CURRENT_CARD_ID g ->
  stacking_inv u g -> stacking_inv u g'.
Proof.
  intros Hf Hid [[Hc Hn He] Hu Hfr].
  assert (Hso : forall x, stacked_on (cards g' x) = stacked_on (cards g x)) by (intros x; apply Hf).
  assert (Hst : forall x, stack (cards g' x) = stack (cards g x)) by (intros x; apply Hf).
  split; [split|..].
  - intros x y. unfold in_stack_of. rewrite Hso, Hst. apply Hc.
  - intros y l. rewrite Hst. apply Hn.
  - intros y. rewrite Hst. apply He.
  - intros x Hx. rewrite Hso. apply Hu, Hx.
  - intros c. rewrite Hid, Hso, Hst. apply Hfr.
Qed.

Lemma stacking_inv_weaken (u u' : card_ref -> Prop) g :
  (forall x, u' x -> u x) -> stacking_inv u g -> stacking_inv u' g.
Proof. intros Hu [Hwf H1 H2]. split; auto. Qed.

Lemma stacking_inv_set_items u p its g :
  stacking_inv u g -> stacking_inv u (set_items p its g).
Proof. apply stacking_inv_ext; auto. Qed.

Lemma stacking_inv_set_pile u c p g :
  stacking_inv u g -> stacking_inv u (upd_card c (set_pile p) g).
Proof.
  apply stacking_inv_ext; [|reflexivity].
  intros x. simpl. destruct (decide (x = c)); auto.
Qed.

Lemma stacking_inv_log u e g :
  stacking_inv u g -> stacking_inv u (log_error e g).
Proof. apply stacking_inv_ext; auto. Qed.

Lemma stack_wf_unstack g c : stack_wf g -> stack_wf (snd (_unstack_card c g)).
Proof.
  intros [Hc Hn He].
  destruct (stacked_on (cards g c)) as [p|] eqn:Hon.
  2:{ rewrite unstack_noop by exact Hon. simpl. split; assumption. }
  destruct (proj1 (Hc c p) Hon) as (l & Hl & Hcl).
  pose proof (unstack_stacked_on g c) as Hso.
  pose proof (fun y => unstack_stack g c p l y Hon Hl) as Hst.
  set (g' := snd (_unstack_card c g)) in *.
  set (l' := remove_item_from_array c l) in *.
  assert (Hgone : c ∉ l') by (apply remove_item_gone, (Hn p), Hl).
  split.
  - intros x y. unfold in_stack_of. rewrite Hso, Hst. split.
    + destruct (decide (x = c)) as [->|Hxc]; [discriminate|]. intros Hxy.
      destruct (proj1 (Hc x y) Hxy) as (ly & Hly & Hx).
      destruct (decide (y = p)) as [->|Hyp]; [|eauto].
      assert (ly = l) by congruence. subst ly.
      assert (Hx' : x ∈ l') by exact (remove_item_elem_ne c x l Hxc Hx).
      destruct (decide (length l' = 0)) as [Hz|_]; [|eauto].
      destruct l'; [inversion Hx' | discriminate].
    + intros (k & Hk & Hx). destruct (decide (y = p)) as [->|Hyp].
      * destruct (decide (length l' = 0)); [discriminate|].
        injection Hk as <-.
        destruct (decide (x = c)) as [->|Hxc]; [contradiction|].
        apply Hc. exists l. split; [exact Hl | eapply remove_item_elem, Hx].
      * assert (Hxy : stacked_on (cards g x) = Some y)
          by (apply (proj2 (Hc x y)); exists k; auto).
        destruct (decide (x = c)) as [->|Hxc]; [congruence | exact Hxy].
  - intros y k. rewrite Hst. destruct (decide (y = p)) as [->|Hyp]; [|apply Hn].
    destruct (decide (length l' = 0)); [discriminate|].
    intros [= <-]. apply remove_item_NoDup, (Hn p), Hl.
  - intros y. rewrite Hst. destruct (decide (y = p)) as [->|Hyp]; [|apply He].
    destruct (decide (length l' = 0)) as [|Hnz]; [discriminate|].
    intros [= Hk]. rewrite Hk in Hnz. apply Hnz. reflexivity.
Qed.

Lemma stacking_inv_unstack_gen u c g :
  stacking_inv u g ->
  stacking_inv (fun x => u x \/ x = c) (snd (_unstack_card c g)).
Proof.
  intros [Hwf Hu Hfr].
  pose proof (unstack_stacked_on g c) as Hso.
  destruct (unstack_layout g c) as (_ & _ & _ & Hid & _).
  split.
  - apply stack_wf_unstack, Hwf.
  - intros x Hx. rewrite Hso. destruct (decide (x = c)); [reflexivity|].
    destruct Hx as [Hx|Hx]; [apply Hu, Hx | contradiction].
  - intros c0 Hc0. rewrite Hid in Hc0. destruct (Hfr c0 Hc0) as [H1 H2].
    rewrite Hso. split; [goal_decide; [reflexivity | exact H1]|].
    destruct (stacked_on (cards g c)) as [p|] eqn:Hon.
    2:{ rewrite unstack_noop by exact Hon. exact H2. }
    destruct (proj1 (wf_consistent g Hwf c p) Hon) as (l & Hl & Hcl).
    rewrite (unstack_stack g c p l c0 Hon Hl).
    goal_decide; [subst; congruence | exact H2].
Qed.

Lemma stacking_inv_unstack u c : preserves (stacking_inv u) (_unstack_card c).
Proof.
  intros g H. eapply stacking_inv_weaken; [|apply stacking_inv_unstack_gen, H].
  intros x Hx. left. exact Hx.
Qed.

Lemma stacking_inv_stack_cards u a b g :
  stacking_inv u g -> u a -> created g a -> created g b ->
  stacking_inv (fun _ => False) (snd (_stack_cards a b g)).
Proof.
  intros [[Hc Hn He] Hu Hfr] Hua Ha Hb.
  destruct (stack_cards_run g a b) as (_ & Hso & Hst & Hid & _).
  set (g' := snd (_stack_cards a b g)) in *.
  assert (Hnone : stacked_on (cards g a) = None) by (apply Hu, Hua).
  assert (Hnot : forall y l, stack (cards g y) = Some l -> a ∉ l).
  { intros y l Hl Hin.
    assert (stacked_on (cards g a) = Some y) by (apply Hc; exists l; auto).
    congruence. }
  assert (Hlb : forall x, x ∈ default [] (stack (cards g b)) ->
                          stacked_on (cards g x) = Some b).
  { intros x Hx. destruct (stack (cards g b)) as [lb|] eqn:E; [|inversion Hx].
    apply Hc. exists lb. auto. }
  split; [split|..].
  - intros x y. unfold in_stack_of. rewrite Hso, Hst. split.
    + destruct (decide (x = a)) as [->|Hxa].
      * intros [= <-]. destruct (decide (b = b)); [|congruence].
        eexists; split; [reflexivity|]. apply elem_of_app. right. left.
      * intros Hxy. destruct (proj1 (Hc x y) Hxy) as (ly & Hly & Hx).
        destruct (decide (y = b)) as [->|]; [|eauto].
        eexists; split; [reflexivity|]. rewrite Hly. simpl.
        apply elem_of_app. left. exact Hx.
    + intros (k & Hk & Hx). destruct (decide (y = b)) as [->|Hyb].
      * injection Hk as <-. apply elem_of_app in Hx as [Hx|Hx].
        -- destruct (decide (x = a)) as [->|]; [reflexivity | apply Hlb, Hx].
        -- apply list_elem_of_singleton in Hx as ->.
           destruct (decide (a = a)); [reflexivity | congruence].
      * destruct (decide (x = a)) as [->|]; [exfalso; eapply Hnot; eauto|].
        apply (proj2 (Hc x y)). exists k. auto.
  - intros y k. rewrite Hst. destruct (decide (y = b)) as [->|]; [|apply Hn].
    intros [= <-]. apply NoDup_app. split; [|split].
    + destruct (stack (cards g b)) as [lb|] eqn:E; [apply (Hn b), E | constructor].
    + intros x Hx Hxa. apply list_elem_of_singleton in Hxa as ->.
      apply Hlb in Hx. congruence.
    + apply NoDup_singleton.
  - intros y. rewrite Hst. destruct (decide (y = b)) as [->|]; [|apply He].
    intros [= Hk]. destruct (default [] (stack (cards g b))); discriminate.
  - intros x [].
  - intros c0 Hc0. rewrite Hid in Hc0. destruct (Hfr c0 Hc0) as [H1 H2].
    unfold created in *. rewrite Hso, Hst.
    repeat goal_decide; try lia. auto.
Qed.

(** ** The stacking relation in reachable states *)

Ltac stacking_steps :=
  auto using stacking_inv_set_items, stacking_inv_set_pile, stacking_inv_log,
             stacking_inv_unstack.

Lemma ready_to_stack_unstack a b c : preserves (ready_to_stack a b) (_unstack_card c).
Proof.
  intros g (Hi & Ha & Hb). destruct (unstack_layout g c) as (_ & _ & _ & Hid & _).
  unfold ready_to_stack, created. rewrite Hid.
  split; [apply stacking_inv_unstack, Hi | auto].
Qed.

Lemma ready_to_stack_stable a b :
  (forall p its g, ready_to_stack a b g -> ready_to_stack a b (set_items p its g))
  /\ (forall c p g, ready_to_stack a b g -> ready_to_stack a b (upd_card c (set_pile p) g))
  /\ (forall e g, ready_to_stack a b g -> ready_to_stack a b (log_error e g)).
Proof.
  unfold ready_to_stack, created.
  split; [|split].
  - intros p its g (Hi & Hab).
    split; [apply stacking_inv_set_items, Hi | exact Hab].
  - intros c p g (Hi & Hab).
    split; [apply stacking_inv_set_pile, Hi | exact Hab].
  - intros e g (Hi & Hab).
    split; [apply stacking_inv_log, Hi | exact Hab].
Qed.

Lemma bind_post {St A B} (Q R : St -> Prop) (m : ST St A) (k : A -> ST St B) g :
  Q (snd (m g)) ->
  (forall a g', Q g' -> R (snd (k a g'))) ->
  (forall g', Q g' -> R g') ->
  R (snd (bind m k g)).
Proof.
  intros Hm Hk Hw. unfold bind.
  destruct (m g) as [[a|e] g']; simpl in *; [apply Hk, Hm | apply Hw, Hm].
Qed.

Lemma stacking_inv_stack_card_on_card frames a b g :
  stacking_inv (fun _ => False) g -> created g a -> created g b ->
  stacking_inv (fun _ => False) (snd (stack_card_on_card frames a b g)).
Proof.
  intros Hi Ha Hb. unfold stack_card_on_card.
  destruct (decide (a = b)); [exact Hi|].
  destruct (ready_to_stack_stable a b) as (S1 & S2 & S3).
  assert (Hweak : forall g0, ready_to_stack a b g0 -> stacking_inv (fun _ => False) g0).
  { intros g0 (H & _). eapply stacking_inv_weaken; [|exact H]. intros x []. }
  apply (bind_post (ready_to_stack a b)); [| |exact Hweak].
  { split; [|destruct (unstack_layout g a) as (_ & _ & _ & Hid & _);
             unfold created; rewrite Hid; auto].
    eapply stacking_inv_weaken; [|apply stacking_inv_unstack_gen, Hi].
    intros x ->. right. reflexivity. }
  intros _ g1 H1.
  apply (bind_post (ready_to_stack a b)); [exact H1| |exact Hweak].
  intros p g2 H2.
  apply (bind_post (ready_to_stack a b)); [| |exact Hweak].
  { destruct (truthy p).
    - apply stable_insert_stack; auto using ready_to_stack_unstack.
    - apply stable_remove_stack; auto. }
  intros _ g3 (H3 & Ha3 & Hb3).
  eapply stacking_inv_stack_cards; eauto. reflexivity.
Qed.

Lemma stacking_inv_create_card t f :
  preserves (stacking_inv (fun _ => False)) (create_card t f).
Proof.
  intros g [[Hc Hn He] Hu Hfr].
  unfold create_card, next_card_id, assign, bind, gets, modify. cbn -[decide].
  destruct (card_data (library g) !! t) as [d|]; cbn -[decide];
    [|split; [split|..]; assumption].
  destruct (Hfr (CURRENT_CARD_ID g) (le_n _)) as [F1 F2].
  split; [split|..]; cbn -[decide].
  - intros x y. unfold in_stack_of. cbn -[decide]. split.
    + destruct (decide (x = CURRENT_CARD_ID g)); [discriminate|]. intros Hxy.
      destruct (proj1 (Hc x y) Hxy) as (l & Hl & Hx).
      destruct (decide (y = CURRENT_CARD_ID g)) as [->|]; [congruence | eauto].
    + intros (l & Hl & Hx). revert Hl.
      destruct (decide (y = CURRENT_CARD_ID g)); [discriminate|]. intros Hl.
      assert (Hxy : stacked_on (cards g x) = Some y)
        by (apply (proj2 (Hc x y)); exists l; auto).
      destruct (decide (x = CURRENT_CARD_ID g)) as [->|]; [congruence | exact Hxy].
  - intros y l. destruct (decide (y = CURRENT_CARD_ID g)); [discriminate | apply Hn].
  - intros y. destruct (decide (y = CURRENT_CARD_ID g)); [discriminate | apply He].
  - intros x [].
  - intros c Hc0. goal_decide; [lia|]. apply Hfr. lia.
Qed.

Lemma stacking_inv_delete_pile u pile_id :
  preserves (stacking_inv u) (delete_pile pile_id).
Proof.
  unfold delete_pile. pres.
  - apply stable_remove_card; stacking_steps.
  - apply preserves_modify. intros g. apply stacking_inv_ext; auto.
Qed.

Lemma stacking_inv_add_pile_to_group u pile_id pile_group_id :
  preserves (stacking_inv u) (add_pile_to_group pile_id pile_group_id).
Proof.
  unfold add_pile_to_group, pile_is_in_group. pres.
  apply preserves_modify. intros g. apply stacking_inv_ext; auto.
Qed.

Lemma stacking_inv_flip_card u card put_face_up :
  preserves (stacking_inv u) (flip_card card put_face_up).
Proof.
  unfold flip_card, assign.
  pres; apply preserves_modify; intros g; (apply stacking_inv_ext; [|reflexivity]);
    intros x; simpl; destruct (decide (x = card)); auto.
Qed.

Lemma stacking_inv_perform frames op g :
  stacking_inv (fun _ => False) g -> on_created_cards g op ->
  stacking_inv (fun _ => False) (snd (perform frames op g)).
Proof.
  intros Hi Hop. destruct op; simpl in Hop; simpl perform.
  - apply stacking_inv_set_items, Hi.
  - apply stacking_inv_delete_pile, Hi.
  - apply stacking_inv_add_pile_to_group, Hi.
  - revert g Hi Hop. intros g Hi _. revert g Hi.
    change (preserves (stacking_inv (fun _ => False))
              (_ <- create_card card_type_id face_up_or_false ;; ret tt)).
    pres. apply stacking_inv_create_card.
  - apply stacking_inv_flip_card, Hi.
  - apply stacking_inv_stack_card_on_card; tauto.
  - apply stable_insert_stack; stacking_steps.
  - apply stable_insert_card; stacking_steps.
  - apply stable_put_card; stacking_steps.
  - apply stable_put_stack; stacking_steps.
  - apply stable_remove_card_from_pile; stacking_steps.
  - apply stable_remove_stack_from_pile; stacking_steps.
  - apply stable_unstack_card; stacking_steps.
  - apply stable_unstack_all_from; stacking_steps.
  - apply stable_shuffle_pile; stacking_steps.
Qed.

Lemma stacking_inv_new_Game lib counter :
  stacking_inv (fun _ => False) (new_Game lib counter).
Proof.
  split; [split|..]; simpl.
  - intros x y. unfold in_stack_of. simpl. split; [discriminate|].
    intros (l & Hl & _). discriminate.
  - discriminate.
  - discriminate.
  - intros x [].
  - auto.
Qed.

Lemma reachable_stacking_inv g : reachable g -> stacking_inv (fun _ => False) g.
Proof.
  induction 1 as [lib counter | g frames op _ IH Hop].
  - apply stacking_inv_new_Game.
  - apply stacking_inv_perform; assumption.
Qed.

(** C1: in every state reachable from a new game through the public
    operations (the ten move operations among them, whether they return or
    throw), card [x] is stacked on card [y] exactly when [y] has a [stack]
    field that contains [x]. *)
Theorem stacking_relation_consistent (g : Game) (x y : card_ref) :
  reachable g ->
  (stacked_on (cards g x) = Some y
   <-> exists l, stack (cards g y) = Some l /\ x ∈ l).
Proof. intros H. apply (wf_consistent g (inv_wf _ g (reachable_stacking_inv g H))). Qed.

Ltac reach_by_play :=
  cbn [foldl];
  repeat (apply reachable_step; [| vm_compute; repeat split; repeat constructor]);
  apply reachable_new.

Lemma two_card_game_reachable : reachable two_card_game.
Proof. unfold two_card_game, play. reach_by_play. Qed.


(** The stacking that [stack_root] cannot leave is itself reachable. *)
Lemma tail_into_loop_game_reachable : reachable tail_into_loop_game.
Proof. unfold tail_into_loop_game, play. reach_by_play. Qed.

Lemma stacking_relation_consistent_witness :
  stacked_on (cards stacked_pair_game 1) = Some 0
  <-> exists l, stack (cards stacked_pair_game 0) = Some l /\ 1 ∈ l.
Proof.
  apply (stacking_relation_consistent stacked_pair_game 1 0).
  unfold stacked_pair_game, two_card_game, play. cbn [foldl].
  repeat (apply reachable_step; [| vm_compute; repeat split; repeat constructor]).
  apply reachable_new.
Defined.

(** ** Shuffling *)






Lemma unstack_same_piles g0 c : preserves (same_piles g0) (_unstack_card c).
Proof.
  intros g [Hp Hc]. destruct (unstack_layout g c) as (H1 & _ & _ & _ & _ & _ & H2).
  split; [congruence|]. intros x. destruct (H2 x) as [-> _]. apply Hc.
Qed.





Lemma reachable_stack_wf g : reachable g -> stack_wf g.
Proof. intros H. apply (inv_wf _ g (reachable_stacking_inv g H)). Qed.

(** ** Stack trees *)





Section stack_trees.
Variables (g0 : Game) (depth : card_ref -> nat) (bound : nat).
Hypothesis Hwf0 : stack_wf g0.
Hypothesis Hrank : ranked g0 depth bound.










(** Chains are deterministic: two ancestors of a card are comparable. *)
Lemma ancestors_comparable y c1 c2 :
  stack_ancestor g0 y c1 -> stack_ancestor g0 y c2 ->
  stack_ancestor g0 c1 c2 \/ stack_ancestor g0 c2 c1.
Proof.
  intros [n Hn] [m Hm]. revert y m Hn Hm.
  induction n as [|n IH]; intros y m Hn Hm.
  - simpl in Hn. injection Hn as ->. left. exists m. exact Hm.
  - destruct m as [|m].
    + simpl in Hm. injection Hm as ->. right. exists (S n). exact Hn.
    + simpl in Hn, Hm. destruct (stacked_on (cards g0 y)) as [y'|]; [|discriminate].
      apply (IH y' m); assumption.
Qed.


(** *** Queries on a game with the stacking of [g0] *)

End stack_trees.

(** ** Loops over a live array that stays put *)




(** ** Taking a card out of its pile *)

Lemma truthy_Some p : p <> "" -> truthy (Some p) = true.
Proof.
  intros H. simpl. destruct (String.eqb_spec p ""); [congruence | reflexivity].
Qed.






(** ** Taking a whole stack out of its piles *)

Section remove_stack.
Variables (g0 : Game) (depth : card_ref -> nat) (bound : nat).
Hypothesis Hwf0 : stack_wf g0.
Hypothesis Hrank : ranked g0 depth bound.


End remove_stack.

(** ** Putting a card into a pile *)

Lemma first_index_lookup (l : list card_ref) i x :
  NoDup l -> l !! i = Some x -> first_index x l = Some i.
Proof.
  intros Hnd Hi.
  destruct (first_index_elem x l) as [k Hk]; [eapply list_elem_of_lookup_2, Hi|].
  destruct (first_index_Some x l k Hk) as [Hlk _].
  rewrite Hk. f_equal. eapply NoDup_lookup; eauto.
Qed.





Lemma position_in_pile_run g c p its i :
  pile (cards g c) = Some p -> p <> "" -> piles g !! p = Some its ->
  NoDup its -> its !! i = Some c ->
  position_in_pile c g = (Ret (Some (Z.of_nat i)), g).
Proof.
  intros Hp Hne Hits Hnd Hi. unfold position_in_pile. mrun.
  rewrite Hp, (truthy_Some p Hne). cbn [js_key default].
  rewrite (run_bind_items_of _ _ _ _ Hits).
  unfold indexOf. rewrite (first_index_lookup its i c Hnd Hi). reflexivity.
Qed.



(** ** Inserting a stack that is in no pile *)

Section insert_stack.
Variables (g0 : Game) (depth : card_ref -> nat) (bound : nat).
Hypothesis Hwf0 : stack_wf g0.
Hypothesis Hrank : ranked g0 depth bound.

End insert_stack.

(** ** Inserting an unstacked card and its stack after another card *)

Lemma pile_wf_ext g g' :
  piles g' = piles g -> (forall x, pile (cards g' x) = pile (cards g x)) ->
  pile_wf g -> pile_wf g'.
Proof.
  intros Hp Hc [Hm Hn Hpr]. split.
  - intros p its c. rewrite Hp, Hc. apply Hm.
  - intros p its. rewrite Hp. apply Hn.
  - intros c p. rewrite Hp, Hc. apply Hpr.
Qed.


Section insert_unstacked.
Variables (g0 : Game) (depth : card_ref -> nat) (bound : nat).
Hypothesis Hwf0 : stack_wf g0.
Hypothesis Hrank : ranked g0 depth bound.

End insert_unstacked.

(** ** Stacking a card and unstacking it again *)







(** The game [stacked_pair_game], field by field. *)
Lemma stacked_pair_game_cards c :
  cards stacked_pair_game c
  = match c with
    | 0 => mkCard "t1" false (Some "tp") None (Some [1])
    | 1 => mkCard "t2" false (Some "tp") (Some 0) None
    | _ => blank_card "" false
    end.
Proof. destruct c as [|[|c]]; vm_compute; reflexivity. Qed.

Lemma stacked_pair_game_piles : piles stacked_pair_game = {[ "tp" := [0; 1] ]}.
Proof. vm_compute. reflexivity. Qed.

Lemma stacked_pair_game_pile_wf : pile_wf stacked_pair_game.
Proof.
  split.
  - intros p its c. rewrite stacked_pair_game_piles, lookup_singleton.
    destruct (decide ("tp" = p)) as [<-|]; [|discriminate].
    intros [= <-] Hc. rewrite stacked_pair_game_cards.
    apply elem_of_cons in Hc as [->|Hc]; [reflexivity|].
    apply list_elem_of_singleton in Hc as ->. reflexivity.
  - intros p its. rewrite stacked_pair_game_piles, lookup_singleton.
    destruct (decide ("tp" = p)) as [<-|]; [|discriminate].
    intros [= <-]. apply NoDup_cons. split; [|apply NoDup_singleton].
    intros H. apply list_elem_of_singleton in H. discriminate.
  - intros c p. rewrite stacked_pair_game_cards, stacked_pair_game_piles.
    destruct c as [|[|c]]; simpl; intros [= <-];
      (split; [discriminate|]; exists [0; 1]; split; [reflexivity|]).
    + left.
    + right. left.
Qed.

Lemma stacked_pair_game_ranked :
  ranked stacked_pair_game (fun c => if decide (c = 1) then 1 else 0) 1.
Proof.
  split.
  - intros x y. rewrite stacked_pair_game_cards.
    destruct x as [|[|x]]; simpl; intros [= <-]. simpl. lia.
  - intros x. destruct (decide (x = 1)); lia.
Qed.







(** In [three_card_game] the premises of the last part hold: stacking
    card 2 on card 0 and unstacking it again leaves card 1 alone on card
    0, directly after it, and card 2 directly after card 1. *)
Lemma stack_then_unstack_after_sibling :
  let r1 := stack_card_on_card 8 2 0 three_card_game in
  let r2 := unstack_card 8 2 (snd r1) in
  fst r1 = Ret tt /\ fst r2 = Ret tt
  /\ piles (snd r2) !! "tp" = Some [0; 1; 2]
  /\ stack (cards (snd r2) 0) = Some [1]
  /\ stack (cards (snd r2) 1) = None
  /\ stacked_on (cards (snd r2) 2) = None.
Proof. cbv zeta. repeat split; vm_compute; reflexivity. Qed.

(** Where the cards stacked on [b] carry stacks of their own, the place
    that [insert_stack_into_pile_after] counts out, [b.stack.length] past
    [b], falls among them: in [nested_stack_game], stacking card 4 on
    card 0 and unstacking it again leaves 4 below card 3, which is still
    stacked on card 0, although [unstack_card] is to place the card after
    any other cards in that stack. *)
Lemma stack_then_unstack_below_sibling :
  let r1 := stack_card_on_card 8 4 0 nested_stack_game in
  let r2 := unstack_card 8 4 (snd r1) in
  reachable nested_stack_game
  /\ piles nested_stack_game !! "tp" = Some [0; 1; 2; 3; 4]
  /\ stack (cards nested_stack_game 0) = Some [1; 3]
  /\ stack (cards nested_stack_game 1) = Some [2]
  /\ stacked_on (cards nested_stack_game 4) = None
  /\ fst r1 = Ret tt /\ fst r2 = Ret tt
  /\ piles (snd r2) !! "tp" = Some [0; 1; 2; 4; 3]
  /\ stacked_on (cards (snd r2) 3) = Some 0.
Proof.
  cbv zeta. split.
  { unfold nested_stack_game, play. reach_by_play. }
  repeat split; vm_compute; reflexivity.
Qed.


(** ** The concrete games, field by field *)

Lemma pile_wf_create_pile g p :
  piles g !! p = None -> pile_wf g -> pile_wf (set_items p [] g).
Proof.
  intros Hnone [Hm Hn Hp]. split.
  - intros q its c. cbn. rewrite lookup_insert.
    destruct (decide (p = q)) as [<-|Hne]; [intros [= <-] Hc; inversion Hc | apply Hm].
  - intros q its. cbn. rewrite lookup_insert.
    destruct (decide (p = q)) as [<-|Hne]; [intros [= <-]; constructor | apply Hn].
  - intros c q Hc. destruct (Hp c q Hc) as (Hq & its & Hits & Hin).
    split; [exact Hq|]. exists its. split; [|exact Hin].
    cbn. rewrite lookup_insert_ne; [exact Hits | congruence].
Qed.

Lemma two_pile_game_eq : two_pile_game = set_items "dp" [] stacked_pair_game.
Proof.
  unfold two_pile_game, play. cbn [foldl perform create_pile]. unfold modify.
  reflexivity.
Qed.

Lemma two_pile_game_reachable : reachable two_pile_game.
Proof.
  unfold two_pile_game, stacked_pair_game, two_card_game, play. reach_by_play.
Qed.

Lemma two_pile_game_pile_wf : pile_wf two_pile_game.
Proof.
  rewrite two_pile_game_eq. apply pile_wf_create_pile; [|apply stacked_pair_game_pile_wf].
  rewrite stacked_pair_game_piles. reflexivity.
Qed.

Lemma ranked_set_items p its g depth bound :
  ranked g depth bound -> ranked (set_items p its g) depth bound.
Proof. intros H. exact H. Qed.

Lemma two_pile_game_ranked :
  ranked two_pile_game (fun c => if decide (c = 1) then 1 else 0) 1.
Proof.
  rewrite two_pile_game_eq. apply ranked_set_items, stacked_pair_game_ranked.
Qed.

Lemma two_pile_game_tp : piles two_pile_game !! "tp" = Some [0; 1].
Proof. vm_compute. reflexivity. Qed.


(** * More properties of the engine *)

(** ** Unstacking everything from a card *)

Lemma unstack_rest_spec c :
  forall k g,
    stack_wf g ->
    stack (cards g c) = (if decide (length k = 0) then None else Some k) ->
    exists g',
      for_of k _unstack_card g = (Ret tt, g')
      /\ stack_wf g' /\ stack (cards g' c) = None
      /\ (forall x, stacked_on (cards g' x)
                    = if decide (x ∈ k) then None else stacked_on (cards g x))
      /\ (forall y, y <> c -> stack (cards g' y) = stack (cards g y)).
Proof.
  induction k as [|x k IH]; intros g Hwf Hst.
  - exists g. split; [reflexivity|]. split; [exact Hwf|]. split; [exact Hst|].
    split; [|reflexivity].
    intros y. destruct (decide (y ∈ [])) as [H|]; [inversion H | reflexivity].
  - cbn [for_of]. simpl in Hst.
    assert (Hnd : NoDup (x :: k)) by (apply (wf_nodup g Hwf c), Hst).
    assert (Hon : stacked_on (cards g x) = Some c).
    { apply (wf_consistent g Hwf). exists (x :: k). split; [exact Hst | left]. }
    pose proof (unstack_returns g x c _ Hon Hst) as Hret.
    pose proof (unstack_stack g x c _ c Hon Hst) as Hst'.
    pose proof (fun y => unstack_stack g x c _ y Hon Hst) as Hsty.
    pose proof (unstack_stacked_on g x) as Hso.
    pose proof (stack_wf_unstack g x Hwf) as Hwf'.
    destruct (_unstack_card x g) as [r g1] eqn:E. simpl in *. subst r.
    rewrite (run_bind_ret _ _ _ _ _ E).
    assert (Hrm : remove_item_from_array x (x :: k) = k).
    { rewrite remove_item_cons. destruct (decide (x = x)); [reflexivity | congruence]. }
    destruct (IH g1 Hwf') as (g' & Hrun & Hwf2 & Hc2 & Hso2 & Hst2).
    { rewrite Hst'. destruct (decide (c = c)); [|congruence]. rewrite Hrm. reflexivity. }
    exists g'. split; [exact Hrun|]. split; [exact Hwf2|]. split; [exact Hc2|].
    split.
    + intros y. rewrite Hso2, Hso.
      destruct (decide (y ∈ k)) as [Hin|Hnin].
      * destruct (decide (y ∈ x :: k)) as [|Hn]; [reflexivity|].
        destruct Hn. right. exact Hin.
      * destruct (decide (y = x)) as [->|Hne].
        -- destruct (decide (x ∈ x :: k)) as [|Hn]; [reflexivity|]. destruct Hn. left.
        -- destruct (decide (y ∈ x :: k)) as [Hin|]; [|reflexivity].
           apply elem_of_cons in Hin as [?|?]; congruence.
    + intros y Hy. rewrite (Hst2 y Hy), Hsty.
      destruct (decide (y = c)); [congruence | reflexivity].
Qed.

(** [unstack_all_from] on a well-formed stacking relation: the cards
    stacked directly on [c] lose their [stacked_on], [c] loses its
    [stack], and nothing else happens. *)
Lemma unstack_all_from_spec g c :
  stack_wf g ->
  exists g',
    unstack_all_from c g = (Ret tt, g')
    /\ stack_wf g' /\ stack (cards g' c) = None
    /\ (forall x, stacked_on (cards g' x)
                  = if decide (stacked_on (cards g x) = Some c) then None
                    else stacked_on (cards g x))
    /\ (forall y, y <> c -> stack (cards g' y) = stack (cards g y))
    /\ same_piles g g'.
Proof.
  intros Hwf.
  assert (Hsame : same_piles g (snd (unstack_all_from c g))).
  { apply stable_unstack_all_from; [apply unstack_same_piles | split; auto]. }
  unfold unstack_all_from in *. revert Hsame. mrun.
  destruct (stack (cards g c)) as [l|] eqn:E.
  - intros Hsame.
    destruct (unstack_rest_spec c l g Hwf) as (g' & Hrun & Hwf' & Hc & Hso & Hst).
    { rewrite E. destruct (decide (length l = 0)) as [Hz|]; [|reflexivity].
      destruct l; [|discriminate]. destruct (wf_nonempty g Hwf c E). }
    rewrite Hrun in Hsame. exists g'. split; [exact Hrun|]. split; [exact Hwf'|].
    split; [exact Hc|]. split; [|split; [exact Hst | exact Hsame]].
    intros x. rewrite Hso.
    destruct (decide (x ∈ l)) as [Hin|Hnin].
    + destruct (decide (stacked_on (cards g x) = Some c)) as [|Hn]; [reflexivity|].
      destruct Hn. apply (wf_consistent g Hwf). exists l. auto.
    + destruct (decide (stacked_on (cards g x) = Some c)) as [Hx|]; [|reflexivity].
      apply (wf_consistent g Hwf) in Hx as (l' & Hl' & Hin).
      congruence.
  - intros Hsame. exists g. split; [reflexivity|]. split; [exact Hwf|].
    split; [exact E|]. split; [|split; [reflexivity | exact Hsame]].
    intros x. destruct (decide (stacked_on (cards g x) = Some c)) as [Hx|]; [|reflexivity].
    apply (wf_consistent g Hwf) in Hx as (l' & Hl' & Hin). congruence.
Qed.


(** ** Single cards *)





(** ** Moving cards from pile to pile *)







Lemma array_get_nat {A} (l : list A) (i : nat) : array_get l (Z.of_nat i) = l !! i.
Proof.
  unfold array_get. destruct (Z.leb_spec 0 (Z.of_nat i)); [|lia].
  rewrite Nat2Z.id. reflexivity.
Qed.


Lemma run_get_card_in_pile g p its (i : nat) :
  piles g !! p = Some its ->
  get_card_in_pile p (Z.of_nat i) g = (Ret (its !! i), g).
Proof.
  intros H. unfold get_card_in_pile. rewrite (run_bind_items_of _ _ _ _ H).
  rewrite array_get_nat. reflexivity.
Qed.

Lemma run_top_card_of_pile g p its :
  piles g !! p = Some its -> top_card_of_pile p g = (Ret (last its), g).
Proof.
  intros H. unfold top_card_of_pile. rewrite (run_bind_items_of _ _ _ _ H).
  unfold ret. f_equal. f_equal. rewrite last_lookup.
  destruct its as [|x its]; [reflexivity|].
  replace (Z.of_nat (length (x :: its)) - 1)%Z with (Z.of_nat (length its))
    by (simpl length; lia).
  rewrite array_get_nat. reflexivity.
Qed.



Lemma stack_wf_ext g g' :
  (forall x, stacked_on (cards g' x) = stacked_on (cards g x)
          /\ stack (cards g' x) = stack (cards g x)) ->
  stack_wf g -> stack_wf g'.
Proof.
  intros Hs [H1 H2 H3]. split.
  - intros x y. unfold in_stack_of. destruct (Hs x) as [-> _], (Hs y) as [_ ->].
    apply H1.
  - intros y l. destruct (Hs y) as [_ ->]. apply H2.
  - intros y. destruct (Hs y) as [_ ->]. apply H3.
Qed.


(** How many cards an action takes from a pile of [n] cards. *)
Lemma to_move_le (n : nat) (wanted : Z) :
  Z.to_nat (Z.min (Z.of_nat n) wanted) <= n.
Proof. lia. Qed.









(** ** Shuffling, pile by pile *)








(** ** Positions in a pile *)

Lemma indexOf_lookup (l : list card_ref) (c : card_ref) (i : nat) :
  NoDup l -> l !! i = Some c -> indexOf c l = Z.of_nat i.
Proof. intros Hnd Hi. unfold indexOf. rewrite (first_index_lookup l i c Hnd Hi). reflexivity. Qed.

Lemma indexOf_elem (l : list card_ref) (c : card_ref) :
  c ∈ l -> exists i, indexOf c l = Z.of_nat i /\ l !! i = Some c.
Proof.
  intros Hin. destruct (first_index_elem c l Hin) as [i Hi].
  exists i. unfold indexOf. rewrite Hi. split; [reflexivity|].
  apply (first_index_Some c l i Hi).
Qed.

Lemma array_get_Some {A} (l : list A) (z : Z) (x : A) :
  array_get l z = Some x -> exists i, z = Z.of_nat i /\ l !! i = Some x.
Proof.
  unfold array_get. destruct (Z.leb_spec 0 z); [|discriminate].
  intros Hl. exists (Z.to_nat z). split; [lia | exact Hl].
Qed.

Lemma run_items_of_none g p :
  piles g !! p = None -> items_of p g = (Throw TypeError, g).
Proof. intros H. unfold items_of, bind, gets. rewrite H. reflexivity. Qed.

(** Reading a pile that answers. *)
Lemma items_of_inv {A} (k : list card_ref -> M A) g p r :
  (pile_items <- items_of p ;; k pile_items) g = (Ret r, g) ->
  exists its, piles g !! p = Some its /\ k its g = (Ret r, g).
Proof.
  destruct (piles g !! p) as [its|] eqn:Hits.
  - rewrite (run_bind_items_of _ _ _ _ Hits). eauto.
  - rewrite (run_bind_throw _ _ _ _ _ (run_items_of_none g p Hits)). intros [=].
Qed.

(** X5: in a well-formed game [position_in_pile] and
    [get_card_in_pile] are inverse to each other: card [c] is in pile [p]
    and [position_in_pile(c)] is [z] exactly when [get_card_in_pile(p, z)]
    is [c]. *)
Theorem position_in_pile_get_card_in_pile g c p z :
  pile_wf g ->
  (pile (cards g c) = Some p /\ position_in_pile c g = (Ret (Some z), g))
  <-> get_card_in_pile p z g = (Ret (Some c), g).
Proof.
  intros Hpw. split.
  - intros [Hp Hpos].
    destruct (pw_present g Hpw c p Hp) as (Hne & its & Hits & Hin).
    destruct (indexOf_elem its c Hin) as (i & Hidx & Hi).
    unfold position_in_pile in Hpos. revert Hpos. mrun.
    rewrite Hp, (truthy_Some p Hne). cbn [js_key default].
    rewrite (run_bind_items_of _ _ _ _ Hits). unfold ret. rewrite Hidx.
    intros [= <-]. rewrite (run_get_card_in_pile g p its i Hits), Hi. reflexivity.
  - intros Hget. apply items_of_inv in Hget as (its & Hits & Hget).
    injection Hget as Hget.
    apply array_get_Some in Hget as (i & -> & Hi).
    assert (Hin : c ∈ its) by (eapply list_elem_of_lookup_2, Hi).
    pose proof (pw_member g Hpw p its c Hits Hin) as Hp.
    destruct (pw_present g Hpw c p Hp) as (Hne & _).
    split; [exact Hp|].
    apply (position_in_pile_run g c p its i Hp Hne Hits (pw_nodup g Hpw p its Hits) Hi).
Qed.

Lemma run_card_is_on_top_of_pile g c p its :
  pile (cards g c) = Some p -> p <> "" -> piles g !! p = Some its ->
  card_is_on_top_of_pile c g = (Ret (bool_decide (last its = Some c)), g).
Proof.
  intros Hp Hne Hits. unfold card_is_on_top_of_pile. mrun.
  rewrite Hp, (truthy_Some p Hne). cbn [js_key default].
  rewrite (run_bind_items_of _ _ _ _ Hits).
  pose proof (run_top_card_of_pile g p its Hits) as Htop.
  unfold top_card_of_pile in Htop. rewrite (run_bind_items_of _ _ _ _ Hits) in Htop.
  injection Htop as ->. reflexivity.
Qed.

Lemma position_in_pile_get_card_in_pile_witness :
  (pile (cards two_pile_game 1) = Some "tp"
   /\ position_in_pile 1 two_pile_game = (Ret (Some 1%Z), two_pile_game))
  <-> get_card_in_pile "tp" 1 two_pile_game = (Ret (Some 1), two_pile_game).
Proof.
  apply (position_in_pile_get_card_in_pile two_pile_game 1 "tp" 1%Z).
  apply two_pile_game_pile_wf.
Defined.

(** X6: in a well-formed game [card_is_on_top_of_pile(c)] returns,
    and it returns [true] exactly when [top_card_of_pile] of some pile is
    [c]. *)
Theorem card_is_on_top_of_pile_top_card g c :
  pile_wf g ->
  exists b,
    card_is_on_top_of_pile c g = (Ret b, g)
    /\ (b = true <-> exists p, top_card_of_pile p g = (Ret (Some c), g)).
Proof.
  intros Hpw. destruct (pile (cards g c)) as [p|] eqn:Hp.
  - destruct (pw_present g Hpw c p Hp) as (Hne & its & Hits & Hin).
    exists (bool_decide (last its = Some c)).
    split; [apply (run_card_is_on_top_of_pile g c p its Hp Hne Hits)|].
    rewrite bool_decide_eq_true. split.
    + intros Hl. exists p. rewrite (run_top_card_of_pile g p its Hits), Hl. reflexivity.
    + intros (q & Hq).
      assert (Hq' := Hq). apply items_of_inv in Hq' as (l & Hl & _).
      rewrite (run_top_card_of_pile g q l Hl) in Hq. injection Hq as Hlast.
      assert (Hcl : c ∈ l).
      { rewrite last_lookup in Hlast. eapply list_elem_of_lookup_2, Hlast. }
      pose proof (pw_member g Hpw q l c Hl Hcl). assert (q = p) by congruence. subst q.
      congruence.
  - exists false. split.
    + unfold card_is_on_top_of_pile. mrun. rewrite Hp. reflexivity.
    + split; [discriminate|]. intros (q & Hq). exfalso.
      assert (Hq' := Hq). apply items_of_inv in Hq' as (l & Hl & _).
      rewrite (run_top_card_of_pile g q l Hl) in Hq. injection Hq as Hlast.
      assert (Hcl : c ∈ l).
      { rewrite last_lookup in Hlast. eapply list_elem_of_lookup_2, Hlast. }
      pose proof (pw_member g Hpw q l c Hl Hcl). congruence.
Qed.

Lemma card_is_on_top_of_pile_top_card_witness :
  exists b,
    card_is_on_top_of_pile 1 two_pile_game = (Ret b, two_pile_game)
    /\ (b = true
        <-> exists p, top_card_of_pile p two_pile_game = (Ret (Some 1), two_pile_game)).
Proof.
  apply (card_is_on_top_of_pile_top_card two_pile_game 1).
  apply two_pile_game_pile_wf.
Defined.

(** ** Pile groups *)

Lemma indexOf_nonneg {A} `{EqDecision A} (x : A) (l : list A) :
  (0 <=? indexOf x l)%Z = bool_decide (x ∈ l).
Proof.
  unfold indexOf. destruct (first_index x l) as [i|] eqn:E.
  - destruct (Z.leb_spec 0 (Z.of_nat i)); [|lia].
    symmetry. apply bool_decide_eq_true. destruct (first_index_Some x l i E) as [Hlk _].
    eapply list_elem_of_lookup_2, Hlk.
  - simpl. symmetry. apply bool_decide_eq_false. apply first_index_None, E.
Qed.

Lemma run_pile_is_in_group g p grp :
  pile_is_in_group p grp g
  = (Ret (bool_decide (grp ∈ default [] (pile_groups g !! p))), g).
Proof.
  unfold pile_is_in_group. mrun. destruct (pile_groups g !! p) as [l|]; simpl.
  - unfold ret. rewrite indexOf_nonneg. reflexivity.
  - reflexivity.
Qed.

Lemma add_pile_to_group_run g p grp its :
  piles g !! p = Some its ->
  exists g',
    add_pile_to_group p grp g = (Ret tt, g')
    /\ (forall p' grp',
          grp' ∈ default [] (pile_groups g' !! p')
          <-> (p' = p /\ grp' = grp) \/ grp' ∈ default [] (pile_groups g !! p'))
    /\ ((forall q l, pile_groups g !! q = Some l -> NoDup l) ->
        forall q l, pile_groups g' !! q = Some l -> NoDup l)
    /\ piles g' = piles g /\ cards g' = cards g.
Proof.
  intros Hits. unfold add_pile_to_group.
  rewrite (run_bind_ret _ _ _ _ _ (run_pile_is_in_group g p grp)).
  destruct (bool_decide (grp ∈ default [] (pile_groups g !! p))) eqn:Hin.
  - apply bool_decide_eq_true in Hin. exists g. split; [reflexivity|].
    split; [|auto]. intros p' grp'. split; [auto|].
    intros [[-> ->]|H]; assumption.
  - apply bool_decide_eq_false in Hin. mrun.
    set (g' := mkGame _ _ _ _ _ _ _).
    assert (Hp' : piles g' !! p = Some its) by exact Hits.
    rewrite (run_bind_items_of _ _ _ _ Hp'). exists g'. split; [reflexivity|].
    split; [|split; [|split; reflexivity]].
    + intros p' grp'. subst g'. cbn [pile_groups]. rewrite lookup_insert.
      destruct (decide (p = p')) as [<-|Hne]; cbn [default].
      * unfold id. rewrite elem_of_app, list_elem_of_singleton. tauto.
      * split; [auto|]. intros [[? _]|H]; [congruence | exact H].
    + intros Hnd q l. subst g'. cbn [pile_groups]. rewrite lookup_insert.
      destruct (decide (p = q)) as [<-|Hne]; [|apply Hnd].
      intros [= <-]. apply NoDup_app. split; [|split].
      * destruct (pile_groups g !! p) as [l0|] eqn:E; [apply (Hnd p), E | constructor].
      * intros x Hx Hx'. apply list_elem_of_singleton in Hx' as ->. contradiction.
      * apply NoDup_singleton.
Qed.

Lemma remove_item_gone_str (x : string) (l : list string) :
  NoDup l -> forall y, y ∈ remove_item_from_array x l <-> y ∈ l /\ y <> x.
Proof.
  intros Hnd y. split.
  - intros Hy. split; [eapply remove_item_elem, Hy|].
    intros ->. revert Hy. apply remove_item_gone, Hnd.
  - intros [Hy Hne]. apply remove_item_elem_ne; assumption.
Qed.

Lemma remove_pile_from_group_run g p grp its l :
  piles g !! p = Some its -> pile_groups g !! p = Some l -> NoDup l ->
  exists g',
    remove_pile_from_group p grp g = (Ret tt, g')
    /\ (forall p' grp',
          grp' ∈ default [] (pile_groups g' !! p')
          <-> grp' ∈ default [] (pile_groups g !! p') /\ ~ (p' = p /\ grp' = grp))
    /\ ((forall q l, pile_groups g !! q = Some l -> NoDup l) ->
        forall q l, pile_groups g' !! q = Some l -> NoDup l)
    /\ piles g' = piles g /\ cards g' = cards g.
Proof.
  intros Hits Hl Hnd. unfold remove_pile_from_group. mrun. rewrite Hl. cbn [deref]. mrun.
  set (g' := mkGame _ _ _ _ _ _ _).
  assert (Hp' : piles g' !! p = Some its) by exact Hits.
  rewrite (run_bind_items_of _ _ _ _ Hp'). exists g'. split; [reflexivity|].
  split; [|split; [|split; reflexivity]].
  - intros p' grp'. subst g'. cbn [pile_groups]. rewrite lookup_insert.
    destruct (decide (p = p')) as [<-|Hne]; cbn [default].
    + rewrite Hl. cbn [default]. unfold id. rewrite (remove_item_gone_str grp l Hnd).
      split; [intros [H1 H2]; split; [exact H1 | intros [_ ?]; congruence]|].
      intros [H1 H2]. split; [exact H1|]. intros ->. apply H2. auto.
    + split; [intros H; split; [exact H | intros [? _]; congruence] | tauto].
  - intros Hall q l'. subst g'. cbn [pile_groups]. rewrite lookup_insert.
    destruct (decide (p = q)) as [<-|Hne]; [|apply Hall].
    intros [= <-]. apply remove_item_NoDup, Hnd.
Qed.

Lemma piles_in_group_of_run grp g :
  forall keys result,
    (forall k, k ∈ keys -> is_Some (pile_groups g !! k)) ->
    piles_in_group_of grp keys result g
    = (Ret (result ++ filter (fun k => grp ∈ default [] (pile_groups g !! k)) keys), g).
Proof.
  induction keys as [|k keys IH]; intros result Hkeys.
  - simpl. rewrite app_nil_r. reflexivity.
  - cbn [piles_in_group_of]. mrun.
    destruct (Hkeys k ltac:(left)) as [l Hl]. rewrite Hl. cbn [deref]. mrun.
    rewrite indexOf_nonneg, filter_cons, Hl. cbn [default]. unfold id.
    assert (Hrest : forall k', k' ∈ keys -> is_Some (pile_groups g !! k'))
      by (intros k' Hk'; apply Hkeys; right; exact Hk').
    destruct (decide (grp ∈ l)) as [Hin|Hnin].
    + rewrite bool_decide_eq_true_2 by exact Hin. rewrite IH by exact Hrest.
      rewrite <- app_assoc. reflexivity.
    + rewrite bool_decide_eq_false_2 by exact Hnin. apply IH, Hrest.
Qed.

Lemma Object_keys_elem {V} (o : gmap string V) k :
  k ∈ Object_keys o <-> is_Some (o !! k).
Proof.
  unfold Object_keys. rewrite list_elem_of_fmap. split.
  - intros ([k' v] & -> & Hin). apply elem_of_map_to_list in Hin. eauto.
  - intros [v Hv]. exists (k, v). split; [reflexivity|]. apply elem_of_map_to_list, Hv.
Qed.

Lemma Object_keys_NoDup {V} (o : gmap string V) : NoDup (Object_keys o).
Proof. apply NoDup_fst_map_to_list. Qed.

Lemma all_piles_in_group_run g grp :
  exists l,
    all_piles_in_group grp g = (Ret l, g)
    /\ NoDup l
    /\ forall p, p ∈ l <-> grp ∈ default [] (pile_groups g !! p).
Proof.
  unfold all_piles_in_group. mrun.
  rewrite piles_in_group_of_run by (intros k Hk; apply Object_keys_elem, Hk).
  eexists. split; [reflexivity|]. cbn [app]. split.
  - apply NoDup_filter, Object_keys_NoDup.
  - intros p. rewrite list_elem_of_filter, Object_keys_elem. split; [tauto|].
    intros H. split; [exact H|].
    destruct (pile_groups g !! p); [eauto | inversion H].
Qed.

(** X7: [add_pile_to_group(p, grp)] on an existing pile returns
    and makes [pile_is_in_group(p, grp)] true; every other answer of
    [pile_is_in_group] is what it was; a pile is never listed twice in the
    same group; piles and cards are untouched.  This is for pile ids that
    name no member of [Object.prototype] (for such an id the lookup in
    [pile_groups] finds the inherited member and the call throws), for a
    group id without whitespace (it becomes part of a class name), and
    for a table of groups without an entry named [hasOwnProperty], which
    would hide the method that the call uses. *)
Theorem add_pile_to_group_joins g p grp its :
  piles g !! p = Some its ->
  plain_key p -> class_token grp ->
  pile_groups g !! "hasOwnProperty" = None ->
  exists g',
    add_pile_to_group p grp g = (Ret tt, g')
    /\ pile_is_in_group p grp g' = (Ret true, g')
    /\ (forall p' grp' b,
          (p', grp') <> (p, grp) -> plain_key p' ->
          pile_is_in_group p' grp' g = (Ret b, g) ->
          pile_is_in_group p' grp' g' = (Ret b, g'))
    /\ ((forall q l, pile_groups g !! q = Some l -> NoDup l) ->
        forall q l, pile_groups g' !! q = Some l -> NoDup l)
    /\ piles g' = piles g /\ cards g' = cards g.
Proof.
  intros Hits _ _ _.
  destruct (add_pile_to_group_run g p grp its Hits) as (g' & Hrun & Hmem & Hnd & Hp & Hc).
  exists g'. split; [exact Hrun|]. split; [|split; [|auto]].
  - rewrite run_pile_is_in_group. rewrite bool_decide_eq_true_2; [reflexivity|].
    apply Hmem. left. auto.
  - intros p' grp' b Hne _. rewrite !run_pile_is_in_group. intros [= <-].
    f_equal. f_equal. apply bool_decide_ext. rewrite Hmem.
    split; [|auto]. intros [[-> ->]|H]; [congruence | exact H].
Qed.

Lemma add_pile_to_group_joins_witness :
  exists g',
    add_pile_to_group "tp" "g1" two_pile_game = (Ret tt, g')
    /\ pile_is_in_group "tp" "g1" g' = (Ret true, g')
    /\ (forall p' grp' b,
          (p', grp') <> ("tp", "g1") -> plain_key p' ->
          pile_is_in_group p' grp' two_pile_game = (Ret b, two_pile_game) ->
          pile_is_in_group p' grp' g' = (Ret b, g'))
    /\ ((forall q l, pile_groups two_pile_game !! q = Some l -> NoDup l) ->
        forall q l, pile_groups g' !! q = Some l -> NoDup l)
    /\ piles g' = piles two_pile_game /\ cards g' = cards two_pile_game.
Proof.
  apply (add_pile_to_group_joins two_pile_game "tp" "g1" [0; 1]).
  - apply two_pile_game_tp.
  - reflexivity.
  - reflexivity.
  - vm_compute. reflexivity.
Defined.

(** X8: [add_pile_to_group(p, grp)] for a pile that does
    not exist throws a [TypeError], but only after it has recorded the
    membership: [pile_is_in_group(p, grp)] is true afterwards although the
    call failed and there is still no such pile. *)
Theorem add_pile_to_group_missing_pile g p grp :
  piles g !! p = None ->
  pile_is_in_group p grp g = (Ret false, g) ->
  exists g',
    add_pile_to_group p grp g = (Throw TypeError, g')
    /\ pile_is_in_group p grp g' = (Ret true, g')
    /\ piles g' = piles g /\ cards g' = cards g.
Proof.
  intros Hnone Hnot. unfold add_pile_to_group.
  rewrite (run_bind_ret _ _ _ _ _ Hnot). mrun.
  set (g' := mkGame _ _ _ _ _ _ _).
  assert (Hp' : piles g' !! p = None) by exact Hnone.
  rewrite (run_bind_throw _ _ _ _ _ (run_items_of_none g' p Hp')).
  exists g'. split; [reflexivity|]. split; [|split; reflexivity].
  rewrite run_pile_is_in_group. rewrite bool_decide_eq_true_2; [reflexivity|].
  subst g'. cbn [pile_groups]. rewrite lookup_insert_eq. cbn [default]. unfold id.
  apply elem_of_app. right. left.
Qed.

Lemma add_pile_to_group_missing_pile_witness :
  exists g',
    add_pile_to_group "nope" "g1" two_pile_game = (Throw TypeError, g')
    /\ pile_is_in_group "nope" "g1" g' = (Ret true, g')
    /\ piles g' = piles two_pile_game /\ cards g' = cards two_pile_game.
Proof.
  apply (add_pile_to_group_missing_pile two_pile_game "nope" "g1").
  - vm_compute. reflexivity.
  - vm_compute. reflexivity.
Defined.

(** X9: [remove_pile_from_group(p, grp)] on an existing pile
    that has a list of groups returns and makes [pile_is_in_group(p, grp)]
    false, whether or not the pile was in [grp]; every other answer of
    [pile_is_in_group], for pile ids that name no member of
    [Object.prototype], is what it was; piles and cards are untouched.
    This is for a group id without whitespace: it becomes part of the
    class name that the call takes off the element of the pile. *)
Theorem remove_pile_from_group_leaves g p grp its l :
  piles g !! p = Some its -> pile_groups g !! p = Some l -> NoDup l ->
  class_token grp ->
  exists g',
    remove_pile_from_group p grp g = (Ret tt, g')
    /\ pile_is_in_group p grp g' = (Ret false, g')
    /\ (forall p' grp' b,
          (p', grp') <> (p, grp) -> plain_key p' ->
          pile_is_in_group p' grp' g = (Ret b, g) ->
          pile_is_in_group p' grp' g' = (Ret b, g'))
    /\ piles g' = piles g /\ cards g' = cards g.
Proof.
  intros Hits Hl Hnd _.
  destruct (remove_pile_from_group_run g p grp its l Hits Hl Hnd)
    as (g' & Hrun & Hmem & _ & Hp & Hc).
  exists g'. split; [exact Hrun|]. split; [|split; [|auto]].
  - rewrite run_pile_is_in_group. rewrite bool_decide_eq_false_2; [reflexivity|].
    rewrite Hmem. intros [_ H]. apply H. auto.
  - intros p' grp' b Hne _. rewrite !run_pile_is_in_group. intros [= <-].
    f_equal. f_equal. apply bool_decide_ext. rewrite Hmem.
    split; [tauto|]. intros H. split; [exact H|]. intros [-> ->]. congruence.
Qed.

Lemma remove_pile_from_group_leaves_witness :
  exists g',
    remove_pile_from_group "tp" "g1" grouped_game = (Ret tt, g')
    /\ pile_is_in_group "tp" "g1" g' = (Ret false, g')
    /\ (forall p' grp' b,
          (p', grp') <> ("tp", "g1") -> plain_key p' ->
          pile_is_in_group p' grp' grouped_game = (Ret b, grouped_game) ->
          pile_is_in_group p' grp' g' = (Ret b, g'))
    /\ piles g' = piles grouped_game /\ cards g' = cards grouped_game.
Proof.
  apply (remove_pile_from_group_leaves grouped_game "tp" "g1" [0; 1] ["g1"]).
  - vm_compute. reflexivity.
  - vm_compute. reflexivity.
  - apply NoDup_singleton.
  - reflexivity.
Defined.

(** X10: a pile that was never put in any group has no
    list of groups, and [remove_pile_from_group] on it throws a
    [TypeError] instead of doing nothing; the game is left as it was.  A
    newly created pile is in that situation. *)
Theorem remove_pile_from_group_never_grouped g p grp :
  pile_groups g !! p = None ->
  remove_pile_from_group p grp g = (Throw TypeError, g)
  /\ remove_pile_from_group p grp (snd (create_pile p g))
     = (Throw TypeError, snd (create_pile p g)).
Proof.
  intros Hnone. split; unfold remove_pile_from_group; mrun.
  - rewrite Hnone. reflexivity.
  - cbn [create_pile modify snd set_items pile_groups]. rewrite Hnone. reflexivity.
Qed.

Lemma remove_pile_from_group_never_grouped_witness :
  remove_pile_from_group "tp" "g1" two_pile_game = (Throw TypeError, two_pile_game)
  /\ remove_pile_from_group "tp" "g1" (snd (create_pile "tp" two_pile_game))
     = (Throw TypeError, snd (create_pile "tp" two_pile_game)).
Proof.
  apply (remove_pile_from_group_never_grouped two_pile_game "tp" "g1").
  vm_compute. reflexivity.
Defined.

(** X11: [all_piles_in_group(grp)] always returns, without
    changing anything, a list without duplicates of exactly the piles for
    which [pile_is_in_group(p, grp)] is true. *)
Theorem all_piles_in_group_members g grp :
  exists l,
    all_piles_in_group grp g = (Ret l, g)
    /\ NoDup l
    /\ forall p, p ∈ l <-> pile_is_in_group p grp g = (Ret true, g).
Proof.
  destruct (all_piles_in_group_run g grp) as (l & Hrun & Hnd & Hmem).
  exists l. split; [exact Hrun|]. split; [exact Hnd|].
  intros p. rewrite Hmem, run_pile_is_in_group. split.
  - intros H. rewrite bool_decide_eq_true_2 by exact H. reflexivity.
  - intros [= H]. apply bool_decide_eq_true in H. exact H.
Qed.

(** ** Libraries *)

Lemma register_card_run card_type_id face_html props lib :
  card_data lib !! card_type_id = None ->
  register_card card_type_id face_html props lib
  = (Ret tt,
     mkLibrary (name lib)
       (<[card_type_id := mkCardType card_type_id face_html props]> (card_data lib))
       (all_cards lib ++ [card_type_id]) (group_data lib) (all_groups lib)).
Proof.
  intros H. unfold register_card. mrun. rewrite H.
  rewrite bool_decide_eq_false_2 by (intros [? ?]; discriminate). reflexivity.
Qed.

Lemma register_card_known card_type_id face_html props lib :
  is_Some (card_data lib !! card_type_id) ->
  register_card card_type_id face_html props lib = (Throw Error, lib).
Proof.
  intros H. unfold register_card. mrun.
  rewrite bool_decide_eq_true_2 by exact H. reflexivity.
Qed.

(** The filter loop of [create_group] on registered card types. *)
Lemma group_members_of_run filter lib :
  forall types acc,
    (forall t, t ∈ types -> is_Some (card_data lib !! t)) ->
    exists members,
      group_members_of filter types acc lib = (Ret (acc ++ members), lib)
      /\ members `sublist_of` types
      /\ forall t, t ∈ members <->
           t ∈ types /\ exists data, card_data lib !! t = Some data
                                     /\ filter (properties data) = true.
Proof.
  induction types as [|t types IH]; intros acc Hreg.
  - exists []. simpl. rewrite app_nil_r. split; [reflexivity|]. split; [constructor|].
    intros t. split; [inversion 1 | intros [Hin _]; inversion Hin].
  - cbn [group_members_of]. mrun.
    destruct (Hreg t ltac:(left)) as [data Hdata]. rewrite Hdata. cbn [deref]. mrun.
    assert (Hrest : forall t', t' ∈ types -> is_Some (card_data lib !! t'))
      by (intros t' Ht'; apply Hreg; right; exact Ht').
    destruct (filter (properties data)) eqn:Hf.
    + destruct (IH (acc ++ [t]) Hrest) as (members & Hrun & Hsub & Hmem).
      exists (t :: members). rewrite Hrun, <- app_assoc.
      split; [reflexivity|]. split; [constructor; exact Hsub|].
      intros t'. rewrite !elem_of_cons, Hmem. split.
      * intros [->|[Hin Hex]]; [split; [left; reflexivity | eauto] | split; [right; exact Hin | exact Hex]].
      * intros [[->|Hin] Hex]; [left; reflexivity | right; split; assumption].
    + destruct (IH acc Hrest) as (members & Hrun & Hsub & Hmem).
      exists members. split; [exact Hrun|]. split; [constructor; exact Hsub|].
      intros t'. rewrite elem_of_cons, Hmem. split.
      * intros [Hin Hex]. split; [right; exact Hin | exact Hex].
      * intros [[->|Hin] Hex]; [|split; assumption].
        destruct Hex as (data' & Hd' & Hf'). congruence.
Qed.

Lemma Object_hasOwnProperty_false {V} (o : gmap string V) k :
  Object_hasOwnProperty o k = false.
Proof. vm_compute. reflexivity. Qed.

Lemma create_group_run group_id filter lib :
  library_wf lib ->
  exists members,
    create_group group_id filter lib
    = (Ret tt,
       mkLibrary (name lib) (card_data lib) (all_cards lib)
         (<[group_id := members]> (group_data lib)) (all_groups lib ++ [group_id]))
    /\ members `sublist_of` all_cards lib
    /\ forall t, t ∈ members <->
         exists data, card_data lib !! t = Some data /\ filter (properties data) = true.
Proof.
  intros Hwf. unfold create_group. mrun. rewrite Object_hasOwnProperty_false. mrun.
  destruct (group_members_of_run filter lib (all_cards lib) [])
    as (members & Hrun & Hsub & Hmem).
  { intros t Ht. apply (lw_data lib Hwf), Ht. }
  exists members. rewrite (run_bind_ret _ _ _ _ _ Hrun).
  split; [reflexivity|]. split; [exact Hsub|].
  intros t. rewrite Hmem. split; [tauto|].
  intros (data & Hd & Hf). split; [|eauto]. apply (lw_data lib Hwf). eauto.
Qed.

Lemma library_wf_new lib_name : library_wf (new_Library lib_name).
Proof.
  split; simpl.
  - intros key [H|H]; inversion H.
  - constructor.
  - intros t. rewrite lookup_empty. split; [inversion 1 | intros [? ?]; discriminate].
  - intros t data. rewrite lookup_empty. discriminate.
  - intros grp members. rewrite lookup_empty. discriminate.
  - intros grp. rewrite lookup_empty. split; [inversion 1 | intros [? ?]; discriminate].
Qed.

Lemma library_wf_register card_type_id face_html props lib :
  plain_key card_type_id -> library_wf lib ->
  library_wf (snd (register_card card_type_id face_html props lib)).
Proof.
  intros Hplain Hwf. destruct (card_data lib !! card_type_id) as [d|] eqn:E.
  - rewrite register_card_known by eauto. exact Hwf.
  - rewrite register_card_run by exact E. destruct Hwf as [H0 H1 H2 H3 H4 H5].
    split; simpl.
    + intros key [Hk|Hk]; [|apply H0; right; exact Hk].
      apply elem_of_app in Hk as [Hk|Hk]; [apply H0; left; exact Hk|].
      apply list_elem_of_singleton in Hk as ->. exact Hplain.
    + apply NoDup_app. split; [exact H1|]. split; [|apply NoDup_singleton].
      intros t Ht Ht'. apply list_elem_of_singleton in Ht' as ->.
      apply H2 in Ht as [? ?]. congruence.
    + intros t. rewrite elem_of_app, list_elem_of_singleton, lookup_insert.
      destruct (decide (card_type_id = t)) as [<-|Hne].
      * split; [eauto | auto].
      * rewrite H2. split; [intros [?|?]; [assumption | congruence] | auto].
    + intros t data. rewrite lookup_insert.
      destruct (decide (card_type_id = t)) as [<-|Hne]; [intros [= <-]; reflexivity | apply H3].
    + intros grp members Hm. destruct (H4 grp members Hm) as [Hnd Hin].
      split; [exact Hnd|]. intros t Ht. apply elem_of_app. left. apply Hin, Ht.
    + exact H5.
Qed.

Lemma library_wf_create_group group_id filter lib :
  plain_key group_id -> library_wf lib ->
  library_wf (snd (create_group group_id filter lib)).
Proof.
  intros Hplain Hwf. destruct (create_group_run group_id filter lib Hwf)
    as (members & -> & Hsub & Hmem).
  destruct Hwf as [H0 H1 H2 H3 H4 H5]. split; simpl; auto.
  - intros key [Hk|Hk]; [apply H0; left; exact Hk|].
    apply elem_of_app in Hk as [Hk|Hk]; [apply H0; right; exact Hk|].
    apply list_elem_of_singleton in Hk as ->. exact Hplain.
  - intros grp ms. rewrite lookup_insert.
    destruct (decide (group_id = grp)) as [<-|Hne]; [|apply H4].
    intros [= <-]. split; [eapply sublist_NoDup; eauto|].
    intros t Ht. eapply elem_of_sublist; eauto.
  - intros grp. rewrite elem_of_app, list_elem_of_singleton, lookup_insert.
    destruct (decide (group_id = grp)) as [<-|Hne].
    + split; [eauto | auto].
    + rewrite H5. split; [intros [?|?]; [assumption | congruence] | auto].
Qed.

Lemma library_reachable_wf lib : library_reachable lib -> library_wf lib.
Proof.
  induction 1 as [lib_name | lib call _ IH Hplain].
  - apply library_wf_new.
  - destruct call; simpl in *.
    + apply library_wf_register; assumption.
    + apply library_wf_create_group; assumption.
Qed.

Lemma run_all_card_types_in_group lib grp members :
  group_data lib !! grp = Some members ->
  all_card_types_in_group grp lib = (Ret members, lib).
Proof. intros H. unfold all_card_types_in_group. mrun. rewrite H. reflexivity. Qed.

Lemma run_card_type_belongs_to_group lib t grp members :
  group_data lib !! grp = Some members ->
  card_type_belongs_to_group t grp lib = (Ret (bool_decide (t ∈ members)), lib).
Proof.
  intros H. unfold card_type_belongs_to_group. mrun. rewrite H. cbn [deref]. mrun.
  rewrite indexOf_nonneg. reflexivity.
Qed.

Lemma test_library_reachable : library_reachable test_library.
Proof.
  assert (H : test_library
              = snd (library_perform (Create_group "evens" is_even)
                  (snd (library_perform (Register_card "t5" "t5" (test_props 5 "yellow"))
                  (snd (library_perform (Register_card "t4" "t4" (test_props 4 "red"))
                  (snd (library_perform (Register_card "t3" "t3" (test_props 3 "red"))
                  (snd (library_perform (Register_card "t2" "t2" (test_props 2 "blue"))
                  (snd (library_perform (Register_card "t1" "t1" (test_props 1 "blue"))
                       (new_Library "test")))))))))))))
    by (vm_compute; reflexivity).
  rewrite H. repeat (apply library_step; [|reflexivity]). apply library_new.
Qed.

(** X12: in every library built from a new one by
    [register_card] and [create_group] calls, failed calls included, with
    ids that name no member of [Object.prototype] (neither [__proto__],
    which is never stored, nor [hasOwnProperty] or [toString], which
    would hide methods that the calls use, nor the others), [all_cards]
    lists each registered card type exactly once, every card type is
    stored under its own id, the members of every group are distinct
    registered card types, and [all_groups] names exactly the groups that
    have a member list. *)
Theorem library_always_well_formed lib :
  library_reachable lib -> library_wf lib.
Proof. apply library_reachable_wf. Qed.

Lemma library_always_well_formed_witness : library_wf test_library.
Proof. apply (library_always_well_formed test_library), test_library_reachable. Defined.

(** X13: in such a library [create_group(grp, filter)],
    for an id that names no member of [Object.prototype], returns;
    afterwards [all_card_types_in_group(grp)] is the list, in
    registration order, of the registered card types whose properties
    pass the filter, [card_type_belongs_to_group(t, grp)] is true for
    exactly these, and the card types and the other groups are as before
    (a group of the same name is replaced). *)
Theorem create_group_members lib grp filter :
  library_wf lib -> plain_key grp ->
  exists lib' members,
    create_group grp filter lib = (Ret tt, lib')
    /\ all_card_types_in_group grp lib' = (Ret members, lib')
    /\ members `sublist_of` all_cards lib
    /\ (forall t, t ∈ members <->
          exists data, card_data lib !! t = Some data
                       /\ filter (properties data) = true)
    /\ (forall t, card_type_belongs_to_group t grp lib'
                  = (Ret (bool_decide (t ∈ members)), lib'))
    /\ card_data lib' = card_data lib /\ all_cards lib' = all_cards lib
    /\ (forall other, other <> grp ->
          group_data lib' !! other = group_data lib !! other).
Proof.
  intros Hwf _.
  destruct (create_group_run grp filter lib Hwf) as (members & Hrun & Hsub & Hmem).
  eexists _, members. split; [exact Hrun|].
  split; [apply run_all_card_types_in_group; cbn; apply lookup_insert_eq|].
  split; [exact Hsub|]. split; [exact Hmem|].
  split; [intros t; apply run_card_type_belongs_to_group; cbn; apply lookup_insert_eq|].
  split; [reflexivity|]. split; [reflexivity|].
  intros other Hne. cbn. apply lookup_insert_ne. congruence.
Qed.

Lemma create_group_members_witness :
  exists lib' members,
    create_group "odds" is_odd test_library = (Ret tt, lib')
    /\ all_card_types_in_group "odds" lib' = (Ret members, lib')
    /\ members `sublist_of` all_cards test_library
    /\ (forall t, t ∈ members <->
          exists data, card_data test_library !! t = Some data
                       /\ is_odd (properties data) = true)
    /\ (forall t, card_type_belongs_to_group t "odds" lib'
                  = (Ret (bool_decide (t ∈ members)), lib'))
    /\ card_data lib' = card_data test_library
    /\ all_cards lib' = all_cards test_library
    /\ (forall other, other <> "odds" ->
          group_data lib' !! other = group_data test_library !! other).
Proof.
  apply (create_group_members test_library "odds" is_odd).
  - apply library_reachable_wf, test_library_reachable.
  - reflexivity.
Defined.

(** X14: a group is a snapshot: in such a library, for ids
    that name no member of [Object.prototype], a card type registered
    after [create_group(grp, filter)] does not belong to the group,
    whatever the filter says about its properties, and the member list is
    what it was. *)
Theorem create_group_is_a_snapshot lib grp filter t face_html props :
  library_wf lib -> plain_key grp -> plain_key t -> card_data lib !! t = None ->
  exists lib1 lib2 members,
    create_group grp filter lib = (Ret tt, lib1)
    /\ all_card_types_in_group grp lib1 = (Ret members, lib1)
    /\ register_card t face_html props lib1 = (Ret tt, lib2)
    /\ all_card_types_in_group grp lib2 = (Ret members, lib2)
    /\ card_type_belongs_to_group t grp lib2 = (Ret false, lib2).
Proof.
  intros Hwf _ _ Hnew.
  destruct (create_group_run grp filter lib Hwf) as (members & Hrun & Hsub & Hmem).
  eexists _, _, members. split; [exact Hrun|].
  split; [apply run_all_card_types_in_group; cbn; apply lookup_insert_eq|].
  split; [apply register_card_run; exact Hnew|].
  split; [apply run_all_card_types_in_group; cbn; apply lookup_insert_eq|].
  erewrite run_card_type_belongs_to_group by (cbn; apply lookup_insert_eq).
  rewrite bool_decide_eq_false_2; [reflexivity|].
  intros Hin. apply Hmem in Hin as (data & Hd & _). congruence.
Qed.

Lemma create_group_is_a_snapshot_witness :
  exists lib1 lib2 members,
    create_group "odds" is_odd test_library = (Ret tt, lib1)
    /\ all_card_types_in_group "odds" lib1 = (Ret members, lib1)
    /\ register_card "t7" "t7" (test_props 7 "green") lib1 = (Ret tt, lib2)
    /\ all_card_types_in_group "odds" lib2 = (Ret members, lib2)
    /\ card_type_belongs_to_group "t7" "odds" lib2 = (Ret false, lib2).
Proof.
  apply (create_group_is_a_snapshot test_library "odds" is_odd "t7" "t7"
           (test_props 7 "green")).
  - apply library_reachable_wf, test_library_reachable.
  - reflexivity.
  - reflexivity.
  - vm_compute. reflexivity.
Defined.

(** ** The cards that [delete_pile] reaches *)

Lemma list_ind2 {A} (P : list A -> Prop) :
  P [] -> (forall x, P [x]) -> (forall x y l, P l -> P (x :: y :: l)) ->
  forall l, P l.
Proof.
  intros H0 H1 H2 l.
  assert (H : P l /\ forall x, P (x :: l)).
  { induction l as [|y l [IHl IHc]]; [auto|]. split; [apply IHc|].
    intros x. apply H2, IHl. }
  apply H.
Qed.

Lemma visited_stepped_over {A} (items : list A) :
  visited items ++ stepped_over items ≡ₚ items.
Proof.
  induction items as [|x|x y l IH] using list_ind2; simpl; [reflexivity..|].
  rewrite <- Permutation_middle. rewrite IH. reflexivity.
Qed.


Lemma stepped_over_lookup {A} (items : list A) (i : nat) :
  stepped_over items !! i = items !! (2 * i + 1).
Proof.
  revert i. induction items as [|x|x y l IH] using list_ind2; intros [|i]; simpl; try reflexivity.
  rewrite IH. replace (i + S (i + 0) + 1) with (S (2 * i + 1)) by lia. reflexivity.
Qed.





(** ** Copying JSON data *)

Lemma push_each_run {St A} (fits : A -> bool) (f : A -> ST St A) (g : St) :
  forall (l acc : list A),
    (forall x, x ∈ l -> f x g = if fits x then (Ret x, g) else (Throw Error, g)) ->
    push_each l f acc g
    = if forallb fits l then (Ret (acc ++ l), g) else (Throw Error, g).
Proof.
  induction l as [|x l IH]; intros acc Hf.
  - simpl. rewrite app_nil_r. reflexivity.
  - cbn [push_each forallb]. unfold bind at 1. rewrite (Hf x ltac:(left)).
    destruct (fits x); [|reflexivity]. cbn [andb].
    rewrite IH by (intros y Hy; apply Hf; right; exact Hy).
    rewrite <- app_assoc. reflexivity.
Qed.

Lemma obj_get_first (k : string) (v : json) (done rest : list (string * json)) :
  k ∉ done.*1 -> obj_get k (done ++ (k, v) :: rest) = Some v.
Proof.
  intros Hk. unfold obj_get. induction done as [|[k' v'] done IH]; simpl.
  - destruct (decide (k = k)); [reflexivity | congruence].
  - destruct (decide (k' = k)) as [->|Hne].
    + destruct Hk. left.
    + simpl in IH. assert (Hk' : k ∉ done.*1) by (intros H; apply Hk; right; exact H).
      specialize (IH Hk'). destruct (list_find _ (done ++ (k, v) :: rest)) as [[i kv]|];
        simpl in *; congruence.
Qed.

Lemma obj_set_new (k : string) (v : json) (o : list (string * json)) :
  k <> "__proto__" -> k ∉ o.*1 -> obj_set k v o = o ++ [(k, v)].
Proof.
  intros Hplain Hk. unfold obj_set.
  destruct (decide (k = "__proto__")); [contradiction|].
  induction o as [|[k' v'] o IH]; simpl; [reflexivity|].
  destruct (decide (k' = k)) as [->|Hne]; [destruct Hk; left|].
  rewrite IH; [reflexivity|]. intros H. apply Hk. right. exact H.
Qed.

Lemma set_each_run {St} (fits : json -> bool) (f : json -> ST St json) (g : St)
    (props : list (string * json)) :
  NoDup props.*1 -> "__proto__" ∉ props.*1 ->
  forall rest done,
    props = done ++ rest ->
    (forall kv, kv ∈ rest ->
       f (snd kv) g = if fits (snd kv) then (Ret (snd kv), g) else (Throw Error, g)) ->
    set_each props rest.*1 f done g
    = if forallb (fun kv => fits (snd kv)) rest then (Ret props, g)
      else (Throw Error, g).
Proof.
  intros Hnd Hproto. induction rest as [|[k v] rest IH]; intros done Hprops Hf.
  - simpl. rewrite Hprops, app_nil_r. reflexivity.
  - assert (Hk : k ∉ done.*1).
    { rewrite Hprops, fmap_app in Hnd. apply NoDup_app in Hnd as (_ & Hdis & _).
      intros Hin. apply (Hdis k Hin). left. }
    assert (Hplain : k <> "__proto__").
    { intros ->. apply Hproto. rewrite Hprops, fmap_app. apply elem_of_app. right. left. }
    cbn [fmap list_fmap set_each forallb fst snd].
    rewrite Hprops at 1. rewrite (obj_get_first k v done rest Hk). cbn [deref]. mrun.
    pose proof (Hf (k, v) ltac:(left)) as Hfv. cbn [snd] in Hfv.
    unfold bind at 1. rewrite Hfv.
    destruct (fits v); [|reflexivity]. cbn [andb].
    rewrite (obj_set_new k v done Hplain Hk).
    apply IH; [rewrite Hprops, <- app_assoc; reflexivity|].
    intros kv Hkv. apply Hf. right. exact Hkv.
Qed.

Lemma json_height_item (items : list json) (item : json) :
  item ∈ items ->
  json_height item < foldr (fun item h => S (json_height item) `max` h) 0 items.
Proof.
  induction items as [|x items IH]; [inversion 1|].
  intros Hin. apply elem_of_cons in Hin as [->|Hin]; simpl; [lia|].
  specialize (IH Hin). lia.
Qed.

Lemma json_height_prop (props : list (string * json)) (kv : string * json) :
  kv ∈ props ->
  json_height (snd kv) < foldr (fun kv h => S (json_height (snd kv)) `max` h) 0 props.
Proof.
  induction props as [|x props IH]; [inversion 1|].
  intros Hin. apply elem_of_cons in Hin as [->|Hin]; simpl; [lia|].
  specialize (IH Hin). lia.
Qed.

Lemma json_wf_item (items : list json) (item : json) :
  foldr (fun item P => json_wf item /\ P) True items -> item ∈ items -> json_wf item.
Proof.
  induction items as [|x items IH]; [inversion 2|].
  simpl. intros [H1 H2] Hin. apply elem_of_cons in Hin as [->|Hin]; auto.
Qed.

Lemma json_wf_prop (props : list (string * json)) (kv : string * json) :
  foldr (fun kv P => json_wf (snd kv) /\ P) True props -> kv ∈ props ->
  json_wf (snd kv).
Proof.
  induction props as [|x props IH]; [inversion 2|].
  simpl. intros [H1 H2] Hin. apply elem_of_cons in Hin as [->|Hin]; auto.
Qed.

(** Whether the parts of a container copied at [depth] stay within the
    limit. *)
Lemma fits_items (d : Z) (items : list json) :
  (d <= 100000)%Z ->
  forallb (fun item => (d + 1 + Z.of_nat (json_height item) <=? 100000)%Z) items
  = (d + Z.of_nat (json_height (JArr items)) <=? 100000)%Z.
Proof.
  intros Hd. induction items as [|x items IH].
  - simpl. symmetry. apply Z.leb_le. lia.
  - cbn [forallb]. rewrite IH.
    change (json_height (JArr (x :: items)))
      with (Nat.max (S (json_height x)) (json_height (JArr items))).
    destruct (Z.leb_spec (d + 1 + Z.of_nat (json_height x)) 100000);
    destruct (Z.leb_spec (d + Z.of_nat (json_height (JArr items))) 100000);
    destruct (Z.leb_spec
                (d + Z.of_nat (Nat.max (S (json_height x)) (json_height (JArr items))))
                100000); simpl; try reflexivity; lia.
Qed.

Lemma fits_props (d : Z) (props : list (string * json)) :
  (d <= 100000)%Z ->
  forallb (fun kv => (d + 1 + Z.of_nat (json_height (snd kv)) <=? 100000)%Z) props
  = (d + Z.of_nat (json_height (JObj props)) <=? 100000)%Z.
Proof.
  intros Hd. induction props as [|x props IH].
  - simpl. symmetry. apply Z.leb_le. lia.
  - cbn [forallb]. rewrite IH.
    change (json_height (JObj (x :: props)))
      with (Nat.max (S (json_height (snd x))) (json_height (JObj props))).
    destruct (Z.leb_spec (d + 1 + Z.of_nat (json_height (snd x))) 100000);
    destruct (Z.leb_spec (d + Z.of_nat (json_height (JObj props))) 100000);
    destruct (Z.leb_spec
                (d + Z.of_nat (Nat.max (S (json_height (snd x))) (json_height (JObj props))))
                100000); simpl; try reflexivity; lia.
Qed.

(** [copy_nonrecursive_obj], given call frames enough for the nesting of
    the value: the copy is equal to the value when the nesting stays within
    the limit, and the call throws its error otherwise. *)
Lemma copy_nonrecursive_obj_run {St} (g : St) :
  forall frames (j : json) (depth : option Z),
    json_wf j -> json_height j < frames ->
    copy_nonrecursive_obj frames j depth g
    = if (default 0 depth + Z.of_nat (json_height j) <=? 100000)%Z
      then (Ret j, g) else (Throw Error, g).
Proof.
  induction frames as [|f IH]; intros j depth Hwf Hfr; [lia|].
  cbn [copy_nonrecursive_obj].
  destruct depth as [d|]; cbn [default].
  - unfold id. destruct (Z.ltb_spec 100000 d) as [Hd|Hd].
    + destruct (Z.leb_spec (d + Z.of_nat (json_height j)) 100000); [lia | reflexivity].
    + destruct j as [| | | |items|props].
      1-4: cbn [json_height]; change (Z.of_nat 0) with 0%Z;
           destruct (Z.leb_spec (d + 0) 100000); [reflexivity | lia].
      * unfold bind.
        rewrite (push_each_run
                   (fun item => (d + 1 + Z.of_nat (json_height item) <=? 100000)%Z)).
        -- rewrite (fits_items d items Hd).
           destruct (d + Z.of_nat (json_height (JArr items)) <=? 100000)%Z; reflexivity.
        -- intros x Hx. rewrite IH.
           ++ cbn [default]. unfold id. reflexivity.
           ++ apply (json_wf_item items x Hwf Hx).
           ++ pose proof (json_height_item items x Hx). cbn [json_height] in Hfr. lia.
      * destruct Hwf as (Hnd & Hproto & Hwf). unfold bind.
        rewrite (set_each_run
                   (fun v => (d + 1 + Z.of_nat (json_height v) <=? 100000)%Z)
                   _ g props Hnd Hproto props []); [|reflexivity|].
        -- rewrite (fits_props d props Hd).
           destruct (d + Z.of_nat (json_height (JObj props)) <=? 100000)%Z; reflexivity.
        -- intros kv Hkv. rewrite IH.
           ++ cbn [default]. unfold id. reflexivity.
           ++ apply (json_wf_prop props kv Hwf Hkv).
           ++ pose proof (json_height_prop props kv Hkv). cbn [json_height] in Hfr. lia.
  - destruct j as [| | | |items|props].
    1-4: reflexivity.
    + unfold bind.
      rewrite (push_each_run
                 (fun item => (0 + 1 + Z.of_nat (json_height item) <=? 100000)%Z)).
      * rewrite (fits_items 0 items ltac:(lia)).
        destruct (0 + Z.of_nat (json_height (JArr items)) <=? 100000)%Z; reflexivity.
      * intros x Hx. rewrite IH.
        -- cbn [default]. unfold id. reflexivity.
        -- apply (json_wf_item items x Hwf Hx).
        -- pose proof (json_height_item items x Hx). cbn [json_height] in Hfr. lia.
    + destruct Hwf as (Hnd & Hproto & Hwf). unfold bind.
      rewrite (set_each_run
                 (fun v => (0 + 1 + Z.of_nat (json_height v) <=? 100000)%Z)
                 _ g props Hnd Hproto props []); [|reflexivity|].
      * rewrite (fits_props 0 props ltac:(lia)).
        destruct (0 + Z.of_nat (json_height (JObj props)) <=? 100000)%Z; reflexivity.
      * intros kv Hkv. rewrite IH.
        -- cbn [default]. unfold id. reflexivity.
        -- apply (json_wf_prop props kv Hwf Hkv).
        -- pose proof (json_height_prop props kv Hkv). cbn [json_height] in Hfr. lia.
Qed.

(** X16: [copy_nonrecursive_obj(value)] on JSON data none of whose
    objects has a property named [__proto__] (or two properties of one
    name), given call frames enough for the nesting of the value, returns
    a copy equal to the value when no part of it is nested more than
    100000 deep, and throws its error otherwise: the copy is never a
    different value. *)
Theorem copy_nonrecursive_obj_copies {St} (g : St) frames (j : json) :
  json_wf j -> json_height j < frames ->
  copy_nonrecursive_obj frames j None g
  = if (Z.of_nat (json_height j) <=? 100000)%Z then (Ret j, g)
    else (Throw Error, g).
Proof.
  intros Hwf Hfr. rewrite (copy_nonrecursive_obj_run g frames j None Hwf Hfr).
  reflexivity.
Qed.

Lemma copy_nonrecursive_obj_copies_witness :
  copy_nonrecursive_obj 4 (JArr [test_props 1 "blue"; JNull]) None tt
  = if (Z.of_nat (json_height (JArr [test_props 1 "blue"; JNull])) <=? 100000)%Z
    then (Ret (JArr [test_props 1 "blue"; JNull]), tt)
    else (Throw Error, tt).
Proof.
  apply (copy_nonrecursive_obj_copies tt 4 (JArr [test_props 1 "blue"; JNull])).
  - simpl. repeat split.
    + repeat (apply NoDup_cons; split;
              [intros H; repeat (apply elem_of_cons in H as [H|H]; [discriminate H|]);
               inversion H|]).
      apply NoDup_nil_2.
    + intros H. repeat (apply elem_of_cons in H as [H|H]; [discriminate H|]).
      inversion H.
  - simpl. lia.
Defined.

(** ** Conditions of actions *)

Lemma not_any_run (conditions : list Conditions.condition) base_pile_id g :
  Conditions.not (Conditions.any conditions) base_pile_id g
  = Conditions.all (map Conditions.not conditions) base_pile_id g.
Proof.
  revert g. induction conditions as [|cond rest IH]; intros g; [reflexivity|].
  specialize (IH).
  unfold Conditions.not in *. cbn [map Conditions.any Conditions.all].
  unfold bind in *. destruct (cond base_pile_id g) as [[[|]|e] g']; cbn;
    [reflexivity | apply IH | reflexivity].
Qed.

Lemma not_all_run (conditions : list Conditions.condition) base_pile_id g :
  Conditions.not (Conditions.all conditions) base_pile_id g
  = Conditions.any (map Conditions.not conditions) base_pile_id g.
Proof.
  revert g. induction conditions as [|cond rest IH]; intros g; [reflexivity|].
  unfold Conditions.not in *. cbn [map Conditions.any Conditions.all].
  unfold bind in *. destruct (cond base_pile_id g) as [[[|]|e] g']; cbn;
    [apply IH | reflexivity | reflexivity].
Qed.

(** X17: the condition combinators obey De Morgan's laws as
    programs: for any conditions, whatever they do to the game and whether
    they return or throw, [not(any(cs))] behaves as [all] of the negated
    conditions and [not(all(cs))] as [any] of them -- same answer, same
    calls in the same order, same final state. *)
Theorem condition_duality (conditions : list Conditions.condition) base_pile_id g :
  Conditions.not (Conditions.any conditions) base_pile_id g
  = Conditions.all (map Conditions.not conditions) base_pile_id g
  /\ Conditions.not (Conditions.all conditions) base_pile_id g
     = Conditions.any (map Conditions.not conditions) base_pile_id g.
Proof. split; [apply not_any_run | apply not_all_run]. Qed.

(** ** Starting a new game *)

Lemma empty_piles_run :
  forall keys g,
    (forall k, k ∈ keys -> is_Some (piles g !! k)) ->
    exists g',
      for_of keys (fun pile_id => _ <- items_of pile_id ;; modify (set_items pile_id [])) g
      = (Ret tt, g')
      /\ (forall p, piles g' !! p = if decide (p ∈ keys) then Some [] else piles g !! p)
      /\ cards g' = cards g /\ existing_cards g' = existing_cards g
      /\ pile_groups g' = pile_groups g /\ console g' = console g
      /\ CURRENT_CARD_ID g' = CURRENT_CARD_ID g /\ library g' = library g.
Proof.
  induction keys as [|k keys IH]; intros g Hkeys.
  - exists g. split; [reflexivity|]. split; [|auto 10].
    intros p. destruct (decide (p ∈ [])) as [H|]; [inversion H | reflexivity].
  - cbn [for_of]. destruct (Hkeys k ltac:(left)) as [its Hits].
    rewrite run_bind_bind, (run_bind_items_of _ _ _ _ Hits). mrun.
    destruct (IH (set_items k [] g)) as (g' & Hrun & Hp & Hrest).
    { intros k' Hk'. cbn. rewrite lookup_insert. destruct (decide (k = k')); [eauto|].
      apply Hkeys. right. exact Hk'. }
    exists g'. split; [exact Hrun|]. split; [|exact Hrest].
    intros p. rewrite Hp. cbn. rewrite lookup_insert.
    destruct (decide (p ∈ keys)) as [Hin|Hnin].
    + destruct (decide (p ∈ k :: keys)) as [|Hn]; [reflexivity | destruct Hn; right; exact Hin].
    + destruct (decide (k = p)) as [->|Hne].
      * destruct (decide (p ∈ p :: keys)) as [|Hn]; [reflexivity | destruct Hn; left].
      * destruct (decide (p ∈ k :: keys)) as [Hin|]; [|reflexivity].
        apply elem_of_cons in Hin as [?|?]; [congruence | contradiction].
Qed.

Lemma new_game_run g :
  exists g',
    new_game None None g = (Ret tt, g')
    /\ (forall p, piles g' !! p = (fun _ => []) <$> piles g !! p)
    /\ existing_cards g' = []
    /\ cards g' = cards g /\ pile_groups g' = pile_groups g.
Proof.
  unfold new_game. cbn [default]. unfold id. mrun.
  set (g0 := mkGame _ _ _ _ _ _ _).
  destruct (empty_piles_run (Object_keys (piles g0)) g0)
    as (g' & Hrun & Hp & Hc & He & Hgr & _).
  { intros k Hk. apply Object_keys_elem, Hk. }
  exists g'. rewrite (run_bind_ret _ _ _ _ _ Hrun).
  split; [reflexivity|]. split; [|auto].
  intros p. rewrite Hp. subst g0. cbn [piles].
  destruct (decide (p ∈ Object_keys (piles g))) as [Hin|Hnin].
  - apply Object_keys_elem in Hin as [its ->]. reflexivity.
  - destruct (piles g !! p) as [its|] eqn:E; [|reflexivity].
    destruct Hnin. apply Object_keys_elem. eauto.
Qed.

(** X18: [new_game], for rules without [cleanup] and [setup]
    functions, returns and empties every pile and the list of existing
    cards; no pile is created or deleted and no card object is touched: a
    card that was in a pile still names that pile, which no longer holds
    it, so that [position_in_pile] answers -1 for it. *)
Theorem new_game_empties_piles g :
  exists g',
    new_game None None g = (Ret tt, g')
    /\ (forall p, piles g' !! p = (fun _ => []) <$> piles g !! p)
    /\ existing_cards g' = []
    /\ cards g' = cards g /\ pile_groups g' = pile_groups g
    /\ (forall c p, pile (cards g c) = Some p -> p <> "" -> is_Some (piles g !! p) ->
          position_in_pile c g' = (Ret (Some (-1)%Z), g')).
Proof.
  destruct (new_game_run g) as (g' & Hrun & Hp & He & Hc & Hgr).
  exists g'. split; [exact Hrun|]. split; [exact Hp|]. split; [exact He|].
  split; [exact Hc|]. split; [exact Hgr|].
  intros c p Hcp Hne [its Hits]. unfold position_in_pile. mrun.
  rewrite Hc, Hcp, (truthy_Some p Hne). cbn [js_key default].
  assert (Hp' : piles g' !! p = Some []) by (rewrite Hp, Hits; reflexivity).
  rewrite (run_bind_items_of _ _ _ _ Hp'). reflexivity.
Qed.

(** ** Walking down a stack *)

Lemma stack_ancestor_step g card parent ancestor :
  stacked_on (cards g card) = Some parent -> card <> ancestor ->
  stack_ancestor g card ancestor <-> stack_ancestor g parent ancestor.
Proof.
  intros Hon Hne. split; intros [n Hn].
  - destruct n as [|n]; simpl in Hn; [congruence|]. rewrite Hon in Hn. exists n. exact Hn.
  - exists (S n). simpl. rewrite Hon. exact Hn.
Qed.

Lemma stack_ancestor_unstacked g card ancestor :
  stacked_on (cards g card) = None ->
  stack_ancestor g card ancestor -> ancestor = card.
Proof.
  intros Hon [n Hn]. destruct n as [|n]; simpl in Hn; [congruence|].
  rewrite Hon in Hn. discriminate.
Qed.

(** Whenever [has_stack_ancestor] returns, its answer is right. *)
Lemma has_stack_ancestor_sound g ancestor frames :
  forall card b g',
    has_stack_ancestor frames card ancestor g = (Ret b, g') ->
    g' = g /\ (b = true <-> stack_ancestor g card ancestor).
Proof.
  induction frames as [|f IH]; intros card b g' Hrun; [discriminate Hrun|].
  cbn [has_stack_ancestor] in Hrun.
  destruct (decide (card = ancestor)) as [->|Hne].
  - injection Hrun as <- <-. split; [reflexivity|]. split; [intros _; exists 0; reflexivity | auto].
  - revert Hrun. mrun. destruct (stacked_on (cards g card)) as [y|] eqn:Hy.
    + intros Hrun. destruct (IH y b g' Hrun) as [-> Hiff]. split; [reflexivity|].
      rewrite Hiff. symmetry. apply stack_ancestor_step; assumption.
    + intros [= <- <-]. split; [reflexivity|]. split; [discriminate|].
      intros H. apply (stack_ancestor_unstacked g card ancestor Hy) in H. congruence.
Qed.

Lemma has_stack_ancestor_returns g depth bound ancestor frames :
  ranked g depth bound ->
  forall card, depth card < frames ->
    exists b, has_stack_ancestor frames card ancestor g = (Ret b, g).
Proof.
  intros [Hstep _]. induction frames as [|f IH]; intros card Hfr; [lia|].
  cbn [has_stack_ancestor].
  destruct (decide (card = ancestor)); [exists true; reflexivity|]. mrun.
  destruct (stacked_on (cards g card)) as [y|] eqn:Hy; [|exists false; reflexivity].
  apply IH. apply Hstep in Hy. lia.
Qed.

(** X19: in a game whose stacking is acyclic,
    [has_stack_ancestor(card, ancestor)] returns, given call frames for
    the length of the chain below [card], and it returns [true] exactly
    when [ancestor] is [card] or a card that [card] is stacked on,
    directly or through other cards. *)
Theorem has_stack_ancestor_decides g depth bound frames card ancestor :
  ranked g depth bound -> depth card < frames ->
  exists b,
    has_stack_ancestor frames card ancestor g = (Ret b, g)
    /\ (b = true <-> stack_ancestor g card ancestor).
Proof.
  intros Hr Hfr.
  destruct (has_stack_ancestor_returns g depth bound ancestor frames Hr card Hfr)
    as [b Hrun].
  exists b. split; [exact Hrun|].
  apply (has_stack_ancestor_sound g ancestor frames card b g Hrun).
Qed.

Lemma has_stack_ancestor_decides_witness :
  exists b,
    has_stack_ancestor 8 1 0 two_pile_game = (Ret b, two_pile_game)
    /\ (b = true <-> stack_ancestor two_pile_game 1 0).
Proof.
  apply (has_stack_ancestor_decides two_pile_game
           (fun c => if decide (c = 1) then 1 else 0) 1 8 1 0).
  - apply two_pile_game_ranked.
  - simpl. lia.
Defined.

(** X20: in a game whose stacking is acyclic, [stack_root(card)]
    returns, given call frames for the length of the chain below [card];
    its answer is the one card without a [stacked_on] among [card] and the
    cards it is stacked on, and that card is its own stack root. *)
Theorem stack_root_finds_base g depth bound frames card :
  ranked g depth bound -> depth card < frames ->
  exists base,
    stack_root frames card None g = (Ret base, g)
    /\ stack_ancestor g card base
    /\ stacked_on (cards g base) = None
    /\ (forall other, stack_ancestor g card other ->
          stacked_on (cards g other) = None -> other = base)
    /\ stack_root frames base None g = (Ret base, g).
Proof.
  intros Hr Hfr.
  destruct (stack_root_acyclic g depth bound frames card Hr Hfr)
    as (n & base & Hrun & Hn & Hbase).
  exists base. split; [exact Hrun|]. split; [exists n; exact Hn|].
  split; [exact Hbase|]. split.
  - intros other Hanc Hun.
    destruct (ancestors_comparable g card other base Hanc (ex_intro _ n Hn)) as [H|H].
    + symmetry. apply (stack_ancestor_unstacked g other base Hun H).
    + apply (stack_ancestor_unstacked g base other Hbase H).
  - destruct frames as [|f]; [lia|]. cbn [stack_root]. mrun. rewrite Hbase. reflexivity.
Qed.

Lemma stack_root_finds_base_witness :
  exists base,
    stack_root 8 1 None two_pile_game = (Ret base, two_pile_game)
    /\ stack_ancestor two_pile_game 1 base
    /\ stacked_on (cards two_pile_game base) = None
    /\ (forall other, stack_ancestor two_pile_game 1 other ->
          stacked_on (cards two_pile_game other) = None -> other = base)
    /\ stack_root 8 base None two_pile_game = (Ret base, two_pile_game).
Proof.
  apply (stack_root_finds_base two_pile_game
           (fun c => if decide (c = 1) then 1 else 0) 1 8 1).
  - apply two_pile_game_ranked.
  - simpl. lia.
Defined.

(** X21: in every reachable game [card_is_on_top_of_stack]
    answers [true] for a card that is neither stacked nor the base of a
    stack and [false] for a card with cards stacked on it; for a card that
    is stacked on another and has nothing stacked on itself it never
    answers: it raises a [ReferenceError], in whatever position of its
    stack the card is. *)
Theorem card_is_on_top_of_stack_answers g card :
  reachable g ->
  card_is_on_top_of_stack card g
  = (match stack (cards g card), stacked_on (cards g card) with
     | None, None => Ret true
     | Some _, _ => Ret false
     | None, Some _ => Throw ReferenceError
     end, g).
Proof.
  intros Hreach. pose proof (reachable_stack_wf g Hreach) as Hwf.
  destruct (stack (cards g card)) as [l|] eqn:Hst.
  - apply (card_is_on_top_of_stack_base g card l Hst).
  - destruct (stacked_on (cards g card)) as [parent|] eqn:Hon.
    + destruct (proj1 (wf_consistent g Hwf card parent) Hon) as (l & Hl & _).
      apply (card_is_on_top_of_stack_stacked_leaf g card parent l Hst Hon Hl).
    + apply (card_is_on_top_of_stack_unstacked g card Hst Hon).
Qed.

Lemma card_is_on_top_of_stack_answers_witness :
  card_is_on_top_of_stack 1 two_pile_game
  = (match stack (cards two_pile_game 1), stacked_on (cards two_pile_game 1) with
     | None, None => Ret true
     | Some _, _ => Ret false
     | None, Some _ => Throw ReferenceError
     end, two_pile_game).
Proof.
  apply (card_is_on_top_of_stack_answers two_pile_game 1).
  apply two_pile_game_reachable.
Defined.

(** ** Card ids *)

(** Nothing but [create_card] touches the list of existing cards and the
    counter of ids. *)
Lemma perform_keeps_ids frames op e n :
  (forall t f, op <> Create_card t f) ->
  preserves (fun g => existing_cards g = e /\ CURRENT_CARD_ID g = n)
            (perform frames op).
Proof.
  intros Hop.
  set (I := fun g : Game => existing_cards g = e /\ CURRENT_CARD_ID g = n).
  assert (H1 : forall p its g, I g -> I (set_items p its g)) by (intros p its g H; exact H).
  assert (H2 : forall c p g, I g -> I (upd_card c (set_pile p) g)) by (intros c p g H; exact H).
  assert (H3 : forall x g, I g -> I (log_error x g)) by (intros x g H; exact H).
  assert (H4 : forall c, preserves I (_unstack_card c)).
  { intros c g [He Hn]. destruct (unstack_layout g c) as (_ & _ & _ & Hid & _ & Hex & _).
    split; congruence. }
  destruct op; cbn [perform].
  - apply preserves_modify. intros g H. exact H.
  - unfold delete_pile. pres.
    + apply stable_remove_card; assumption.
    + apply preserves_modify. intros g H. exact H.
  - unfold add_pile_to_group, pile_is_in_group. pres.
    apply preserves_modify. intros g H. exact H.
  - destruct (Hop card_type_id face_up_or_false eq_refl).
  - unfold flip_card, assign. pres; apply preserves_modify; intros g H; exact H.
  - unfold stack_card_on_card, _stack_cards, assign. pres;
      first [ apply H4
            | apply stable_insert_stack; assumption
            | apply stable_remove_stack; assumption
            | apply preserves_modify; intros g H; exact H ].
  - apply stable_insert_stack; assumption.
  - apply stable_insert_card; assumption.
  - apply stable_put_card; assumption.
  - apply stable_put_stack; assumption.
  - apply stable_remove_card_from_pile; assumption.
  - apply stable_remove_stack_from_pile; assumption.
  - apply stable_unstack_card; assumption.
  - apply stable_unstack_all_from; assumption.
  - apply stable_shuffle_pile; assumption.
Qed.

Lemma create_card_ids t f g :
  let r := create_card t f g in
  (fst r = Throw TypeError
   /\ existing_cards (snd r) = existing_cards g
   /\ CURRENT_CARD_ID (snd r) = CURRENT_CARD_ID g)
  \/ (fst r = Ret (CURRENT_CARD_ID g)
      /\ existing_cards (snd r) = existing_cards g ++ [CURRENT_CARD_ID g]
      /\ CURRENT_CARD_ID (snd r) = CURRENT_CARD_ID g + 1).
Proof.
  cbv zeta. unfold create_card. mrun.
  destruct (card_data (library g) !! t) as [data|]; cbn [deref]; [|left; auto].
  right. unfold next_card_id. mrun. cbn. auto.
Qed.

(** X22: in every reachable game whose counter of ids is below
    2^53, so that every id was counted exactly, the list of existing
    cards has no duplicates and holds only ids below the counter of ids;
    so [create_card], which returns the counter, returns a card different
    from every existing one. *)
Theorem card_ids_are_unique g :
  reachable g -> exact_counter g ->
  NoDup (existing_cards g)
  /\ (forall c, c ∈ existing_cards g -> c < CURRENT_CARD_ID g)
  /\ (forall t f c,
        fst (create_card t f g) = Ret c ->
        (c ∉ existing_cards g)
        /\ existing_cards (snd (create_card t f g)) = existing_cards g ++ [c]).
Proof.
  intros Hreach _.
  assert (Hinv : NoDup (existing_cards g)
                 /\ forall c, c ∈ existing_cards g -> c < CURRENT_CARD_ID g).
  { induction Hreach as [lib counter | g frames op _ [IH1 IH2] _].
    - split; [constructor | intros c Hc; inversion Hc].
    - destruct op;
        try (match goal with
             | |- context [perform frames ?o g] =>
                 destruct (perform_keeps_ids frames o (existing_cards g) (CURRENT_CARD_ID g)
                             ltac:(discriminate) g (conj eq_refl eq_refl)) as [-> ->]
             end; split; assumption).
      cbn [perform].
      match goal with
      | |- context [create_card ?t ?f] =>
          pose proof (create_card_ids t f g) as Hcc;
          assert (Hsnd : snd ((_ <- create_card t f;; ret tt) g) = snd (create_card t f g))
            by (unfold bind; destruct (create_card t f g) as [[?|?] ?]; reflexivity)
      end.
      rewrite Hsnd. cbv zeta in Hcc.
      destruct Hcc as [(_ & -> & ->) | (_ & -> & ->)]; [split; assumption|].
      split.
      + apply NoDup_app. split; [exact IH1|]. split; [|apply NoDup_singleton].
        intros c Hc Hc'. apply list_elem_of_singleton in Hc' as ->.
        apply IH2 in Hc. lia.
      + intros c Hc. apply elem_of_app in Hc as [Hc|Hc].
        * apply IH2 in Hc. lia.
        * apply list_elem_of_singleton in Hc as ->. lia. }
  destruct Hinv as [H1 H2]. split; [exact H1|]. split; [exact H2|].
  intros t f c Hc.
  destruct (create_card_ids t f g) as [(Hr & _) | (Hr & He & _)]; [congruence|].
  rewrite Hr in Hc. injection Hc as <-. split; [|exact He].
  intros Hin. apply H2 in Hin. lia.
Qed.

Lemma card_ids_are_unique_witness :
  NoDup (existing_cards two_pile_game)
  /\ (forall c, c ∈ existing_cards two_pile_game -> c < CURRENT_CARD_ID two_pile_game)
  /\ (forall t f c,
        fst (create_card t f two_pile_game) = Ret c ->
        (c ∉ existing_cards two_pile_game)
        /\ existing_cards (snd (create_card t f two_pile_game))
           = existing_cards two_pile_game ++ [c]).
Proof.
  apply (card_ids_are_unique two_pile_game).
  - exact two_pile_game_reachable.
  - vm_compute. reflexivity.
Defined.

(** ** Inserting a stack whose base stays stacked *)


(** [insert_stack_into_pile_after] on a stack that is in no pile, when
    the card that the base of the stack is stacked on, if any, is in the
    target pile: nothing gets unstacked, and the cards that were in the
    pile keep their order. *)
Section insert_tree.
Variables (g0 : Game) (depth : card_ref -> nat) (bound : nat).
Hypothesis Hwf0 : stack_wf g0.
Hypothesis Hrank : ranked g0 depth bound.

End insert_tree.

(** ** Well-formed games *)


Lemma ranked_thinner g g' depth bound :
  (forall u v, stacked_on (cards g' u) = Some v -> stacked_on (cards g u) = Some v) ->
  ranked g depth bound -> ranked g' depth bound.
Proof.
  intros Hsub [H1 H2]. split; [|exact H2]. intros x y Hxy. apply H1, Hsub, Hxy.
Qed.






(** Games that differ only in the console, the groups of piles or the
    faces of the cards are well-formed together. *)
Lemma well_formed_ext g g' :
  (forall x, stacked_on (cards g' x) = stacked_on (cards g x)
          /\ stack (cards g' x) = stack (cards g x)
          /\ pile (cards g' x) = pile (cards g x)) ->
  piles g' = piles g -> CURRENT_CARD_ID g <= CURRENT_CARD_ID g' ->
  well_formed g -> well_formed g'.
Proof.
  intros Hc Hp Hid [Hs Hpw (depth & bound & Hr) Hone Hfr]. split.
  - apply (stack_wf_ext g); [|exact Hs]. intros x. destruct (Hc x) as (? & ? & _). auto.
  - apply (pile_wf_ext g); [exact Hp | | exact Hpw]. intros x. apply Hc.
  - exists depth, bound. apply (ranked_thinner g); [|exact Hr].
    intros u v. destruct (Hc u) as (-> & _). auto.
  - intros x y. destruct (Hc x) as (-> & _ & ->). destruct (Hc y) as (_ & _ & ->).
    apply Hone.
  - intros c Hle. destruct (Hc c) as (-> & -> & ->). apply Hfr. lia.
Qed.







(** ** Inserting a stack after a card, in general *)







(** ** Putting a stack on a pile *)

Section put_tree.
Variables (g0 : Game) (depth : card_ref -> nat) (bound : nat).
Hypothesis Hwf0 : stack_wf g0.
Hypothesis Hrank : ranked g0 depth bound.

End put_tree.




(** ** Stacking a card on a card *)




(** ** Sound calls on well-formed games *)
















(** ** The invariant of the engine *)

Lemma well_formed_new_Game lib counter : well_formed (new_Game lib counter).
Proof.
  split.
  - apply (inv_wf _ _ (stacking_inv_new_Game lib counter)).
  - split; cbn.
    + intros p its c H. rewrite lookup_empty in H. discriminate.
    + intros p its H. rewrite lookup_empty in H. discriminate.
    + intros c p [=].
  - exists (fun _ => 0), 0. split; [intros x y [=] | intros x; lia].
  - intros x y [=].
  - intros c _. cbn. auto.
Qed.




Lemma create_card_well_formed g t f :
  well_formed g -> is_Some (card_data (library g) !! t) ->
  exists c g', create_card t f g = (Ret c, g') /\ well_formed g'.
Proof.
  intros Hwfg [data Hdata].
  destruct (create_card_ids t f g) as [(Hthrow & _)|(Hret & _ & Hid)].
  { exfalso. revert Hthrow. unfold create_card. mrun. rewrite Hdata. cbn [deref].
    unfold next_card_id. mrun. discriminate. }
  assert (Hfields : forall x,
            stacked_on (cards (snd (create_card t f g)) x) = stacked_on (cards g x)
            /\ stack (cards (snd (create_card t f g)) x) = stack (cards g x)
            /\ pile (cards (snd (create_card t f g)) x) = pile (cards g x)).
  { intros x. unfold create_card. mrun. rewrite Hdata. cbn [deref].
    unfold next_card_id. mrun. cbn -[decide].
    destruct (decide (x = CURRENT_CARD_ID g)) as [->|]; [|auto].
    destruct (g_fresh g Hwfg (CURRENT_CARD_ID g) ltac:(lia)) as (-> & -> & ->).
    cbn. auto. }
  assert (Hpiles : piles (snd (create_card t f g)) = piles g).
  { unfold create_card. mrun. rewrite Hdata. cbn [deref].
    unfold next_card_id. mrun. reflexivity. }
  destruct (create_card t f g) as [r g'] eqn:Hrun. cbn [fst snd] in *. subst r.
  exists (CURRENT_CARD_ID g), g'. split; [reflexivity|].
  apply (well_formed_ext g); [exact Hfields | exact Hpiles | lia | exact Hwfg].
Qed.







(** ** Where the moving operations put a stack *)













(** ** Taking cards out of piles and off stacks *)











(** X30: [unstack_all_from] returns whenever the stacking
    relation is consistent: the card is left with no stack, the cards that
    were stacked on it are stacked on nothing, and nothing else changes:
    the stacks of those cards stay on them, and no card leaves its place
    in its pile. *)
Theorem unstack_all_from_unstacks_one_level g c :
  stack_wf g ->
  exists g',
    unstack_all_from c g = (Ret tt, g')
    /\ stack_wf g'
    /\ stack (cards g' c) = None
    /\ (forall x, stacked_on (cards g' x)
                  = if decide (stacked_on (cards g x) = Some c) then None
                    else stacked_on (cards g x))
    /\ (forall y, y <> c -> stack (cards g' y) = stack (cards g y))
    /\ piles g' = piles g
    /\ (forall x, pile (cards g' x) = pile (cards g x)).
Proof.
  intros Hwf.
  destruct (unstack_all_from_spec g c Hwf)
    as (g' & Hrun & Hwf' & Hst & Hso & Hoth & Hpiles & Hpile).
  exists g'. auto 10.
Qed.

Lemma unstack_all_from_unstacks_one_level_witness :
  exists g',
    unstack_all_from 0 two_pile_game = (Ret tt, g')
    /\ stack_wf g'
    /\ stack (cards g' 0) = None
    /\ (forall x, stacked_on (cards g' x)
                  = if decide (stacked_on (cards two_pile_game x) = Some 0) then None
                    else stacked_on (cards two_pile_game x))
    /\ (forall y, y <> 0 -> stack (cards g' y) = stack (cards two_pile_game y))
    /\ piles g' = piles two_pile_game
    /\ (forall x, pile (cards g' x) = pile (cards two_pile_game x)).
Proof.
  apply (unstack_all_from_unstacks_one_level two_pile_game 0).
  apply reachable_stack_wf, two_pile_game_reachable.
Defined.
